(** * Remote build client: reload orchestrator and request correlator

    A shallow embedding of the two stateful services of the editor
    extension, [HotReloadService] (services/hotReloadService.ts) and
    [ServerConnection] (services/serverConnection.ts), together with the
    properties of their queues, guards, timers and pending-request table.

    Conventions of the embedding.
    - A JavaScript [Map] whose iteration order is observable is an
      insertion-ordered association list ([JsMap]); a [Map] that is only
      looked up, inserted and deleted by key is a [gmap].
    - The host's timer table is explicit: [setTimeout] allocates a handle
      and [clearTimeout] disarms it; the firing of a timer is an event.
    - A promise created by [new Promise] is a cell of a promise heap that
      can be settled once; later calls of [resolve]/[reject] are ignored.
    - An [async] method is split at the point where it suspends on the
      network; what lies before and after is run as one event each.
    - Values read from the outside world (the clock, the random source,
      the content of a file, the reply of the server) are arguments.
    - JavaScript strings are modelled by [string]; numbers by [Z]. *)

From stdpp Require Import base list strings gmap.
From Stdlib Require Import ZArith Ascii DecimalString Lia.

Open Scope Z_scope.

(** ** JavaScript primitives used by the services *)

Module Js.

(** [s.includes(sub)] *)
Fixpoint includes (s sub : string) : bool :=
  if String.prefix sub s then true
  else match s with
       | EmptyString => false
       | String _ rest => includes rest sub
       end.

(** [ToInt32]: the wrap-around of the bitwise operators. *)
Definition to_int32 (z : Z) : Z := (z + 2 ^ 31) mod 2 ^ 32 - 2 ^ 31.

(** [a << k] *)
Definition shl (a k : Z) : Z := to_int32 (Z.shiftl (to_int32 a) k).

(** [a & b] *)
Definition and (a b : Z) : Z := to_int32 (Z.land (to_int32 a) (to_int32 b)).

(** [s.charCodeAt(i)], for the character itself *)
Definition charCode (c : ascii) : Z := Z.of_nat (nat_of_ascii c).

(** [n.toString()] for an integer *)
Definition toString (z : Z) : string := NilZero.string_of_int (Z.to_int z).

(** [path.basename(p, ext)] for a relative path with forward slashes:
    the segment after the last slash, without the extension [ext] when
    the segment ends with it. *)
Fixpoint last_segment (p : string) : string :=
  match p with
  | EmptyString => EmptyString
  | String c rest =>
      if includes rest "/" then last_segment rest
      else if Ascii.eqb c "/" then rest else p
  end.

Definition basename (p ext : string) : string :=
  let seg := last_segment p in
  let n := (String.length seg - String.length ext)%nat in
  if (Nat.ltb (String.length ext) (String.length seg))
     && String.eqb (String.substring n (String.length ext) seg) ext
  then String.substring 0 n seg
  else seg.

(** [pattern.replace(/\*\*/g, ".*")] *)
Fixpoint replace_double_star (s : string) : string :=
  match s with
  | String c1 (String c2 rest as tl) =>
      if Ascii.eqb c1 "*" && Ascii.eqb c2 "*"
      then String "." (String "*" (replace_double_star rest))
      else String c1 (replace_double_star tl)
  | _ => s
  end.

(** [pattern.replace(/\*/g, "[^/]*")] *)
Fixpoint replace_star (s : string) : string :=
  match s with
  | EmptyString => EmptyString
  | String c rest =>
      if Ascii.eqb c "*" then "[^/]*" +:+ replace_star rest
      else String c (replace_star rest)
  end.

End Js.

(** ** The host's timers *)

Inductive TimerStatus := Armed | Cleared | Fired.

Record Timer (A : Type) := mkTimer {
  callback : A;        (* what the closure passed to setTimeout captured *)
  delay : Z;           (* milliseconds *)
  status : TimerStatus
}.
Arguments mkTimer {A} _ _ _.
Arguments callback {A} _.
Arguments delay {A} _.
Arguments status {A} _.

Definition disarm {A} (st : TimerStatus) (t : Timer A) : Timer A :=
  mkTimer (callback t) (delay t) st.

(** [setTimeout(cb, ms)]: a fresh handle, armed. *)
Definition setTimeout {A} (cb : A) (ms : Z) (ts : list (Timer A))
  : nat * list (Timer A) :=
  (List.length ts, ts ++ [mkTimer cb ms Armed]).

(** [clearTimeout(h)]: disarms an armed timer, nothing otherwise. *)
Definition clearTimeout {A} (h : nat) (ts : list (Timer A)) : list (Timer A) :=
  match ts !! h with
  | Some t => match status t with
              | Armed => <[h := disarm Cleared t]> ts
              | _ => ts
              end
  | None => ts
  end.

(** The host runs the callback of an armed timer, once. *)
Definition fire {A} (h : nat) (ts : list (Timer A)) : option (A * list (Timer A)) :=
  match ts !! h with
  | Some t => match status t with
              | Armed => Some (callback t, <[h := disarm Fired t]> ts)
              | _ => None
              end
  | None => None
  end.

(** ** An insertion-ordered [Map] with string keys *)

Module JsMap.

Fixpoint get {V} (k : string) (m : list (string * V)) : option V :=
  match m with
  | [] => None
  | (k', v) :: m' => if decide (k = k') then Some v else get k m'
  end.

Definition has {V} (k : string) (m : list (string * V)) : bool :=
  match get k m with Some _ => true | None => false end.

(** [m.set(k, v)]: an existing key keeps its place, a new one goes last. *)
Fixpoint set {V} (k : string) (v : V) (m : list (string * V))
  : list (string * V) :=
  match m with
  | [] => [(k, v)]
  | (k', v') :: m' =>
      if decide (k = k') then (k, v) :: m' else (k', v') :: set k v m'
  end.

Definition keys {V} (m : list (string * V)) : list string := m.*1.

Definition clear {V} (m : list (string * V)) : list (string * V) := [].

End JsMap.

(** ** HotReloadService (services/hotReloadService.ts) *)

Module HotReload.

Record HotReloadConfig := mkConfig {
  enabled : bool;
  debounceDelay : Z;
  incrementalCompilation : bool;
  swiftUIPreviewMode : bool;
  autoSave : bool;
  excludePatterns : list string
}.

(** [Partial<HotReloadConfig>]: every property may be absent; one that
    is present holds a value of the type of its field. *)
Record PartialConfig := mkPartial {
  p_enabled : option bool;
  p_debounceDelay : option Z;
  p_incrementalCompilation : option bool;
  p_swiftUIPreviewMode : option bool;
  p_autoSave : option bool;
  p_excludePatterns : option (list string)
}.

Inductive ChangeType := ui_only | logic | structure | dependency.

Record ChangeAnalysis := mkAnalysis {
  type : ChangeType;
  files : list string;
  affectedComponents : list string;
  requiresFullRebuild : bool;
  estimatedRebuildTime : Z
}.

Record HotReloadResult := mkResult {
  success : bool;
  duration : Z;
  changeType : string;
  errors : option (list string);
  warnings : option (list string)
}.

(** The values of [changeQueue] and of [buildCache]. *)
Record Change := mkChange { timestamp : Z; content : string }.

Record CacheEntry := mkEntry {
  cached_content : string;
  cached_timestamp : Z;
  hash : string
}.

Inductive Strategy := swiftui_preview | incremental | full.

(** ["change" | "create" | "delete"] *)
Inductive FileEvent := ev_change | ev_create | ev_delete.

Inductive StatusText := Building | Ready | Disabled.

Inductive Severity := info | warning | error.

(** A body of [performHotReload] suspended on the server: what it
    computed before it suspended. *)
Record Cycle := mkCycle {
  forceFullRebuild : bool;
  startTime : Z;
  analysis : ChangeAnalysis;
  strategy : Strategy
}.

Record State := mkState {
  config : HotReloadConfig;
  debounceTimer : option nat;
  timers : list (Timer bool);
  changeQueue : list (string * Change);
  lastSuccessfulBuild : gmap string string;
  buildCache : gmap string CacheEntry;
  statusBar : StatusText;
  outputChannel : list string;
  notifications : list (Severity * string);
  isReloading : bool;
  reloadHistory : list HotReloadResult;
  inflight : list Cycle
}.

Definition defaultConfig : HotReloadConfig :=
  mkConfig true 1000 true true true ["**/Tests/**"; "**/*.test.swift"].

(** The service as its constructor leaves it, for the settings [cfg]
    that [loadConfiguration] reads. *)
Definition initial (cfg : HotReloadConfig) : State :=
  mkState cfg None [] [] ∅ ∅
          (if enabled cfg then Ready else Disabled) [] [] false [] [].

(** *** Field updates *)

Definition set_config (c : HotReloadConfig) (s : State) : State :=
  mkState c (debounceTimer s) (timers s) (changeQueue s)
          (lastSuccessfulBuild s) (buildCache s) (statusBar s)
          (outputChannel s) (notifications s) (isReloading s)
          (reloadHistory s) (inflight s).

Definition set_debounce (h : option nat) (ts : list (Timer bool)) (s : State)
  : State :=
  mkState (config s) h ts (changeQueue s)
          (lastSuccessfulBuild s) (buildCache s) (statusBar s)
          (outputChannel s) (notifications s) (isReloading s)
          (reloadHistory s) (inflight s).

Definition set_changeQueue (q : list (string * Change)) (s : State) : State :=
  mkState (config s) (debounceTimer s) (timers s) q
          (lastSuccessfulBuild s) (buildCache s) (statusBar s)
          (outputChannel s) (notifications s) (isReloading s)
          (reloadHistory s) (inflight s).

Definition set_caches (l : gmap string string) (c : gmap string CacheEntry)
    (s : State) : State :=
  mkState (config s) (debounceTimer s) (timers s) (changeQueue s)
          l c (statusBar s)
          (outputChannel s) (notifications s) (isReloading s)
          (reloadHistory s) (inflight s).

Definition set_statusBar (t : StatusText) (s : State) : State :=
  mkState (config s) (debounceTimer s) (timers s) (changeQueue s)
          (lastSuccessfulBuild s) (buildCache s) t
          (outputChannel s) (notifications s) (isReloading s)
          (reloadHistory s) (inflight s).

Definition appendLine (line : string) (s : State) : State :=
  mkState (config s) (debounceTimer s) (timers s) (changeQueue s)
          (lastSuccessfulBuild s) (buildCache s) (statusBar s)
          (outputChannel s ++ [line]) (notifications s) (isReloading s)
          (reloadHistory s) (inflight s).

Definition showNotification (message : string) (sev : Severity) (s : State)
  : State :=
  mkState (config s) (debounceTimer s) (timers s) (changeQueue s)
          (lastSuccessfulBuild s) (buildCache s) (statusBar s)
          (outputChannel s) (notifications s ++ [(sev, message)])
          (isReloading s) (reloadHistory s) (inflight s).

Definition set_isReloading (b : bool) (s : State) : State :=
  mkState (config s) (debounceTimer s) (timers s) (changeQueue s)
          (lastSuccessfulBuild s) (buildCache s) (statusBar s)
          (outputChannel s) (notifications s) b
          (reloadHistory s) (inflight s).

Definition set_reloadHistory (h : list HotReloadResult) (s : State) : State :=
  mkState (config s) (debounceTimer s) (timers s) (changeQueue s)
          (lastSuccessfulBuild s) (buildCache s) (statusBar s)
          (outputChannel s) (notifications s) (isReloading s)
          h (inflight s).

Definition set_inflight (l : list Cycle) (s : State) : State :=
  mkState (config s) (debounceTimer s) (timers s) (changeQueue s)
          (lastSuccessfulBuild s) (buildCache s) (statusBar s)
          (outputChannel s) (notifications s) (isReloading s)
          (reloadHistory s) l.

Definition updateStatusBar (s : State) : State :=
  set_statusBar
    (if enabled (config s)
     then if isReloading s then Building else Ready
     else Disabled) s.

(** *** Configuration *)

(** [{ ...cfg, ...newConfig }] *)
Definition spread (cfg : HotReloadConfig) (newConfig : PartialConfig)
  : HotReloadConfig :=
  {| enabled := default (enabled cfg) (p_enabled newConfig);
     debounceDelay := default (debounceDelay cfg) (p_debounceDelay newConfig);
     incrementalCompilation :=
       default (incrementalCompilation cfg) (p_incrementalCompilation newConfig);
     swiftUIPreviewMode :=
       default (swiftUIPreviewMode cfg) (p_swiftUIPreviewMode newConfig);
     autoSave := default (autoSave cfg) (p_autoSave newConfig);
     excludePatterns :=
       default (excludePatterns cfg) (p_excludePatterns newConfig) |}.

(** [updateConfiguration]; the copy of the new values into the
    editor's settings store is an effect outside the service. *)
Definition updateConfiguration (newConfig : PartialConfig) (s : State) : State :=
  updateStatusBar (set_config (spread (config s) newConfig) s).

Definition toggle (s : State) : State :=
  let c := config s in
  let s1 :=
    updateStatusBar
      (set_config (mkConfig (negb (enabled c)) (debounceDelay c)
                            (incrementalCompilation c) (swiftUIPreviewMode c)
                            (autoSave c) (excludePatterns c)) s) in
  let status := if enabled (config s1) then "enabled" else "disabled" in
  appendLine ("Hot reload " +:+ status)
             (showNotification ("Hot reload " +:+ status) info s1).

Definition setEnabled (b : bool) (s : State) : State :=
  let c := config s in
  updateStatusBar
    (set_config (mkConfig b (debounceDelay c)
                          (incrementalCompilation c) (swiftUIPreviewMode c)
                          (autoSave c) (excludePatterns c)) s).

(** *** Change analysis *)

Definition isSwiftUIView (filePath : string) (c : Change) : bool :=
  Js.includes filePath "View.swift"
  || Js.includes (content c) "@State"
  || Js.includes (content c) "View {".

Definition isStructural (c : Change) : bool :=
  Js.includes (content c) "import "
  || Js.includes (content c) "class "
  || Js.includes (content c) "struct "
  || Js.includes (content c) "enum "
  || Js.includes (content c) "protocol ".

Definition isDependency (filePath : string) (c : Change) : bool :=
  Js.includes filePath "Package.swift" || Js.includes (content c) "@main".

(** One turn of the loop of [analyzeChanges] over the variables
    [changeType], [requiresFullRebuild] and [affectedComponents]. *)
Definition analyzeFile (q : list (string * Change))
    (acc : ChangeType * bool * list string) (filePath : string)
  : ChangeType * bool * list string :=
  match JsMap.get filePath q with
  | None => acc
  | Some c =>
      let '(ty, rebuild, comps) := acc in
      let '(ty, comps) :=
        if isSwiftUIView filePath c
        then (ui_only, comps ++ [Js.basename filePath ".swift"])
        else (ty, comps) in
      let '(ty, rebuild) :=
        if isStructural c then (structure, true) else (ty, rebuild) in
      let '(ty, rebuild) :=
        if isDependency filePath c then (dependency, true) else (ty, rebuild) in
      (ty, rebuild, comps)
  end.

Definition estimate (ty : ChangeType) (n : Z) : Z :=
  match ty with
  | ui_only => Z.min (n * 200) 2000
  | logic => Z.min (n * 500) 5000
  | structure => Z.min (n * 1000) 15000
  | dependency => 30000
  end.

Definition analyzeChanges (q : list (string * Change)) : ChangeAnalysis :=
  let changedFiles := JsMap.keys q in
  let '(ty, rebuild, comps) :=
    fold_left (analyzeFile q) changedFiles (logic, false, []) in
  mkAnalysis ty changedFiles comps rebuild
             (estimate ty (Z.of_nat (List.length changedFiles))).

Definition getReloadStrategy (cfg : HotReloadConfig) (a : ChangeAnalysis)
  : Strategy :=
  if match type a with ui_only => true | _ => false end
     && swiftUIPreviewMode cfg
     && (Z.of_nat (List.length (files a)) <=? 3)
  then swiftui_preview
  else if incrementalCompilation cfg
          && negb (requiresFullRebuild a)
          && (Z.of_nat (List.length (files a)) <=? 10)
  then incremental
  else full.

(** *** The build cache *)

Definition hashContent (s : string) : string :=
  Js.toString
    (fold_left
       (fun h c => let h := Js.shl h 5 - h + Js.charCode c in Js.and h h)
       (String.list_ascii_of_string s) 0).

(** The entry that [updateBuildCache] writes for a queued change. *)
Definition entryOf (c : Change) : CacheEntry :=
  mkEntry (content c) (timestamp c) (hashContent (content c)).

(** One turn of the loop of [updateBuildCache], on
    [lastSuccessfulBuild] and [buildCache]. *)
Definition cacheChange (acc : gmap string string * gmap string CacheEntry)
    (kv : string * Change) : gmap string string * gmap string CacheEntry :=
  (<[kv.1 := content kv.2]> acc.1, <[kv.1 := entryOf kv.2]> acc.2).

Definition updateBuildCache (s : State) : State :=
  let acc :=
    fold_left cacheChange (changeQueue s)
              (lastSuccessfulBuild s, buildCache s) in
  set_caches acc.1 acc.2 s.

Definition getBuildCacheForFiles (fs : list string)
    (cache : gmap string CacheEntry) : list (string * CacheEntry) :=
  omap (fun f => (fun e => (f, e)) <$> cache !! f) fs.

(** *** The three reload strategies *)

(** The part of a reply that the service reads. *)
Record Response := mkResponse { r_warnings : option (list string) }.

Inductive Request :=
| swiftui_preview_update (path text : string) (components : option (list string))
| incremental_build (changedFiles : list string)
                    (cache : list (string * CacheEntry))
| apply_incremental_update (data : Response)
| sync_file (path text : string) (lastModified : Z)
| build_project
| run_project
| asset_update (path : string).

(** How an awaited [sendMessage] ends. *)
Inductive Reply := resolved (data : Response) | rejected (message : string).

(** How a strategy ends. *)
Inductive Outcome := returned (r : HotReloadResult) | thrown (message : string).

Definition undefined_change : string :=
  "Cannot read properties of undefined (reading 'content')".

(** Sends one request per file; the message of the first failure. *)
Fixpoint sendEach (server : Request -> Reply) (q : list (string * Change))
    (mk : string -> Change -> Request) (fs : list string) : option string :=
  match fs with
  | [] => None
  | filePath :: rest =>
      match JsMap.get filePath q with
      | None => Some undefined_change
      | Some c =>
          match server (mk filePath c) with
          | resolved _ => sendEach server q mk rest
          | rejected m => Some m
          end
      end
  end.

Definition performSwiftUIPreviewReload (server : Request -> Reply)
    (a : ChangeAnalysis) (q : list (string * Change)) (elapsed : Z) : Outcome :=
  match sendEach server q
          (fun f c => swiftui_preview_update f (content c)
                        (Some (affectedComponents a)))
          (files a) with
  | None => returned (mkResult true elapsed "SwiftUI Preview" None None)
  | Some m => thrown ("SwiftUI preview reload failed: " +:+ m)
  end.

Definition performIncrementalReload (server : Request -> Reply)
    (a : ChangeAnalysis) (cache : gmap string CacheEntry) (elapsed : Z)
  : Outcome :=
  match server (incremental_build (files a)
                  (getBuildCacheForFiles (files a) cache)) with
  | rejected m => thrown ("Incremental reload failed: " +:+ m)
  | resolved response =>
      match server (apply_incremental_update response) with
      | rejected m => thrown ("Incremental reload failed: " +:+ m)
      | resolved _ =>
          returned (mkResult true elapsed "Incremental" None
                             (r_warnings response))
      end
  end.

Definition performFullReload (server : Request -> Reply)
    (a : ChangeAnalysis) (q : list (string * Change)) (elapsed : Z) : Outcome :=
  match sendEach server q
          (fun f c => sync_file f (content c) (timestamp c)) (files a) with
  | Some m => thrown ("Full reload failed: " +:+ m)
  | None =>
      match server build_project with
      | rejected m => thrown ("Full reload failed: " +:+ m)
      | resolved _ =>
          match server run_project with
          | rejected m => thrown ("Full reload failed: " +:+ m)
          | resolved _ =>
              returned (mkResult true elapsed "Full Rebuild" None None)
          end
      end
  end.

(** The [switch] of [performHotReload]. *)
Definition runStrategy (server : Request -> Reply) (c : Cycle) (elapsed : Z)
    (s : State) : Outcome :=
  match strategy c with
  | swiftui_preview =>
      performSwiftUIPreviewReload server (analysis c) (changeQueue s) elapsed
  | incremental =>
      performIncrementalReload server (analysis c) (buildCache s) elapsed
  | full => performFullReload server (analysis c) (changeQueue s) elapsed
  end.

(** *** The reload cycle *)

(** [if (l && l.length > 0) { appendLine(title); l.forEach(...) }] *)
Definition appendItems (title : string) (l : option (list string))
    (s : State) : State :=
  match l with
  | Some (x :: l') =>
      fold_left (fun s w => appendLine ("  - " +:+ w) s) (x :: l')
                (appendLine title s)
  | _ => s
  end.

Definition showReloadResult (r : HotReloadResult) (s : State) : State :=
  let message :=
    if success r
    then "Hot reload completed in " +:+ Js.toString (duration r)
         +:+ "ms (" +:+ changeType r +:+ ")"
    else "Hot reload failed after " +:+ Js.toString (duration r) +:+ "ms" in
  let s := appendLine message s in
  let s := appendItems "Warnings:" (warnings r) s in
  let s := appendItems "Errors:" (errors r) s in
  if negb (success r) || (10000 <? duration r)
  then showNotification message (if success r then info else error) s
  else s.

Inductive Started := skipped | started (c : Cycle).

Definition skipLine : string := "Hot reload already in progress, skipping...".

(** [performHotReload] up to the first request of the strategy. *)
Definition performHotReload_begin (force : bool) (now : Z) (s : State)
  : Started * State :=
  if isReloading s
  then (skipped, appendLine skipLine s)
  else
    let s := updateStatusBar (set_isReloading true s) in
    let a := analyzeChanges (changeQueue s) in
    let s :=
      appendLine
        ("Change analysis: "
         +:+ match type a with
             | ui_only => "ui-only" | logic => "logic"
             | structure => "structure" | dependency => "dependency"
             end
         +:+ " (" +:+ Js.toString (Z.of_nat (List.length (files a)))
         +:+ " files)") s in
    let strat :=
      if force || requiresFullRebuild a then full
      else getReloadStrategy (config s) a in
    let c := mkCycle force now a strat in
    (started c, set_inflight (inflight s ++ [c]) s).

(** The [finally] block. *)
Definition finally (result : HotReloadResult) (s : State) : State :=
  let s := updateStatusBar (set_isReloading false s) in
  let h := reloadHistory s ++ [result] in
  set_reloadHistory (if (50 <? List.length h)%nat then tail h else h) s.

(** [performHotReload] from the end of the strategy on, for the
    suspended body number [i]. *)
Definition performHotReload_end (i : nat) (o : Outcome) (now : Z) (s : State)
  : State :=
  match inflight s !! i with
  | None => s
  | Some c =>
      let s := set_inflight (delete i (inflight s)) s in
      match o with
      | returned result =>
          let s := updateBuildCache s in
          let s := set_changeQueue (JsMap.clear (changeQueue s)) s in
          finally result (showReloadResult result s)
      | thrown m =>
          let result :=
            mkResult false (now - startTime c) "error" (Some [m]) None in
          let s := appendLine ("Hot reload failed: " +:+ m) s in
          let s := showNotification ("Hot reload failed: " +:+ m) error s in
          finally result s
      end
  end.

(** A whole cycle against a server that answers at once: no other
    event runs between its two halves. *)
Definition performHotReload (server : Request -> Reply) (force : bool)
    (now elapsed : Z) (s : State) : State :=
  match performHotReload_begin force now s with
  | (skipped, s) => s
  | (started c, s) =>
      performHotReload_end (List.length (inflight s) - 1)
        (runStrategy server c elapsed s) (now + elapsed) s
  end.

(** *** Triggers *)

Definition triggerHotReload (force : bool) (s : State) : State :=
  let ts :=
    match debounceTimer s with
    | Some h => clearTimeout h (timers s)
    | None => timers s
    end in
  let '(h, ts) := setTimeout force (debounceDelay (config s)) ts in
  set_debounce (Some h) ts s.

(** The debounce timer [h] fires. *)
Definition debounceFired (h : nat) (now : Z) (s : State)
  : option (Started * State) :=
  match fire h (timers s) with
  | Some (force, ts) =>
      Some (performHotReload_begin force now
              (set_debounce (debounceTimer s) ts s))
  | None => None
  end.

Definition handleConfigChange (s : State) : State :=
  let s :=
    appendLine "Project configuration changed - full rebuild required" s in
  let s := set_caches (lastSuccessfulBuild s) ∅ s in
  triggerHotReload true s.

Definition forceReload (connected : bool) (now : Z) (s : State)
  : Started * State :=
  if negb connected
  then (skipped, showNotification "Not connected to server" error s)
  else performHotReload_begin true now
         (appendLine "Force reload triggered" s).

Definition handleAssetChange (relativePath : string) (s : State) : State :=
  appendLine ("Asset changed: " +:+ relativePath) s.

Section WithRegExp.

(** [new RegExp(source).test(subject)] *)
Variable RegExp_test : string -> string -> bool.

Definition shouldExcludeFile (cfg : HotReloadConfig) (filePath : string)
  : bool :=
  existsb
    (fun pattern =>
       RegExp_test (Js.replace_star (Js.replace_double_star pattern))
                   filePath)
    (excludePatterns cfg).

(** [handleFileChange], with the file as [readFile] finds it
    ([None] when reading throws); saving a dirty document first is
    an effect on the editor. *)
Definition handleFileChange (connected : bool) (relativePath : string)
    (ev : FileEvent) (fileContent : option string) (now : Z) (s : State)
  : State :=
  if negb (enabled (config s)) || negb connected then s
  else if shouldExcludeFile (config s) relativePath then s
  else
    match (match ev with ev_delete => Some "" | _ => fileContent end) with
    | None => s
    | Some text =>
        triggerHotReload false
          (set_changeQueue
             (JsMap.set relativePath (mkChange now text) (changeQueue s)) s)
    end.

Definition handleSwiftUIChange (connected : bool) (server : Request -> Reply)
    (relativePath : string) (fileContent : option string) (now : Z)
    (s : State) : State :=
  if negb (swiftUIPreviewMode (config s))
  then handleFileChange connected relativePath ev_change fileContent now s
  else
    let s := appendLine ("SwiftUI Preview Update: " +:+ relativePath) s in
    match fileContent with
    | None =>
        handleFileChange connected relativePath ev_change fileContent now s
    | Some text =>
        match server (swiftui_preview_update relativePath text None) with
        | resolved _ => showNotification "SwiftUI preview updated" info s
        | rejected _ =>
            handleFileChange connected relativePath ev_change fileContent now s
        end
    end.

(** One event of the extension host on the service. *)
Inductive step (s : State) : State -> Prop :=
| step_fileChange connected relativePath ev fileContent now :
    step s (handleFileChange connected relativePath ev fileContent now s)
| step_swiftUIChange connected server relativePath fileContent now :
    step s (handleSwiftUIChange connected server relativePath
                                fileContent now s)
| step_configChange :
    step s (handleConfigChange s)
| step_assetChange relativePath :
    step s (handleAssetChange relativePath s)
| step_debounceFired h now r s' :
    debounceFired h now s = Some (r, s') -> step s s'
| step_forceReload connected now :
    step s (forceReload connected now s).2
| step_cycleEnd i o now :
    step s (performHotReload_end i o now s)
| step_updateConfiguration newConfig :
    step s (updateConfiguration newConfig s)
| step_toggle :
    step s (toggle s)
| step_setEnabled b :
    step s (setEnabled b s).

Definition reachable (s : State) : Prop :=
  exists cfg, rtc step (initial cfg) s.

End WithRegExp.

(** *** Invariant of the service *)

(** At most one body of [performHotReload] is suspended, and the guard
    is set exactly while one is. *)
Definition guarded (s : State) : Prop :=
  (inflight s = [] /\ isReloading s = false)
  \/ (exists c, inflight s = [c] /\ isReloading s = true).

Record Inv (s : State) : Prop := mkInv {
  inv_keys : NoDup (JsMap.keys (changeQueue s));
  inv_guard : guarded s;
  inv_batch : forall c, c ∈ inflight s ->
              files (analysis c) ⊆ JsMap.keys (changeQueue s);
  inv_history : (List.length (reloadHistory s) <= 50)%nat;
  inv_timer : forall h t, timers s !! h = Some t -> status t = Armed ->
              debounceTimer s = Some h
}.

(** Everything but the status bar, the output channel and the
    notifications. *)
Definition core (s : State) :=
  (config s, debounceTimer s, timers s, changeQueue s,
   lastSuccessfulBuild s, buildCache s, isReloading s, reloadHistory s,
   inflight s).

(** What a file event leaves in the queue for the file. *)
Definition captured (ev : FileEvent) (text : string) : string :=
  match ev with ev_delete => "" | _ => text end.

(** *** Concrete inputs *)

(** No file is excluded. *)
Definition noExclusion : string -> string -> bool := fun _ _ => false.

(** A server whose every reply is a failure. *)
Definition failing : Request -> Reply := fun _ => rejected "Request timeout".

Definition manifest : string * Change :=
  ("Package.swift", mkChange 1 "// swift-tools-version:5.9").

Definition loginView : string * Change :=
  ("Sources/LoginView.swift", mkChange 2 "@State var name = 1").

(** The service after one edit of a source file. *)
Definition edited : State :=
  handleFileChange noExclusion true "Sources/App.swift" ev_change
                   (Some "let a = 1") 10 (initial defaultConfig).

(** The service while a forced reload is running. *)
Definition reloading : State :=
  (forceReload true 0 (initial defaultConfig)).2.

(** *** Further definitions used in the statements *)

(** The polynomial of base 31 over the character codes of a string,
    without wrap-around. *)
Definition horner31 (s : string) : Z :=
  fold_left (fun h c => 31 * h + Js.charCode c)
            (String.list_ascii_of_string s) 0.

(** A file event that passes the guards of [handleFileChange]. *)
Record Edit := mkEdit {
  e_path : string;
  e_event : FileEvent;
  e_text : string;
  e_time : Z
}.

(** A burst of such events, delivered one after the other. *)
Definition handleFileChanges (RegExp_test : string -> string -> bool)
    (edits : list Edit) (s : State) : State :=
  fold_left
    (fun s e =>
       handleFileChange RegExp_test true (e_path e) (e_event e)
                        (Some (e_text e)) (e_time e) s)
    edits s.

(** The signals that [analyzeChanges] looks for in one queued file. *)
Definition forcesRebuild (kv : string * Change) : bool :=
  isStructural kv.2 || isDependency kv.1 kv.2.

Definition hasSignal (kv : string * Change) : bool :=
  isSwiftUIView kv.1 kv.2 || forcesRebuild kv.

(** A server that accepts every request. *)
Definition accepting : Request -> Reply := fun _ => resolved (mkResponse None).

(** Two edits in quick succession. *)
Definition twoEdits : list Edit :=
  [mkEdit "Sources/A.swift" ev_change "let a = 1" 10;
   mkEdit "Sources/B.swift" ev_create "let b = 2" 20].

End HotReload.

(** ** ServerConnection (services/serverConnection.ts) *)

Module Connection.

(** The payload of a message, as far as the client reads it:
    [data.message] and the rest. *)
Record Data := mkData { message : option string; payload : string }.

Record ServerMessage := mkMessage {
  type : string;
  data : Data;
  id : option string
}.

(** [websocket.readyState] *)
Inductive ReadyState := CONNECTING | OPEN | CLOSING | CLOSED.

#[global] Instance ReadyState_eq_dec : EqDecision ReadyState.
Proof. solve_decision. Defined.

(** A promise returned by [sendMessage]. *)
Inductive Promise :=
| Pending
| Fulfilled (value : Data)
| Rejected (reason : string).

(** A value of [pendingRequests]: [resolve] and [reject] are those of
    the promise [promise]. *)
Record PendingRequest := mkPending { promise : nat; timeout : nat }.

(** What the closures given to [setTimeout] do. *)
Inductive TimerCallback :=
| request_timeout (messageId : string) (p : nat)
| reconnect.

Inductive Handler :=
| notifySimulatorFrame
| notifyBuildOutput
| notifyDeviceList
| showServerError
| handleRemoteFileChange.

Inductive Effect :=
| handled (h : Handler) (d : Data)
| unhandled (type : string)
| setContext_connected (b : bool)
| showMessage (text : string).

Record State := mkState {
  websocket : option ReadyState;
  connected : bool;
  reconnectAttempts : Z;
  pendingRequests : gmap string PendingRequest;
  promises : list Promise;
  timers : list (Timer TimerCallback);
  fileWatcher : bool;
  sent : list ServerMessage;
  effects : list Effect
}.

Definition maxReconnectAttempts : Z := 5.
Definition reconnectInterval : Z := 5000.

Definition initial : State := mkState None false 0 ∅ [] [] false [] [].

Definition set_websocket (w : option ReadyState) (s : State) : State :=
  mkState w (connected s) (reconnectAttempts s) (pendingRequests s)
          (promises s) (timers s) (fileWatcher s) (sent s) (effects s).

Definition set_connected (b : bool) (s : State) : State :=
  mkState (websocket s) b (reconnectAttempts s) (pendingRequests s)
          (promises s) (timers s) (fileWatcher s) (sent s) (effects s).

Definition set_reconnectAttempts (n : Z) (s : State) : State :=
  mkState (websocket s) (connected s) n (pendingRequests s)
          (promises s) (timers s) (fileWatcher s) (sent s) (effects s).

Definition set_pendingRequests (m : gmap string PendingRequest) (s : State)
  : State :=
  mkState (websocket s) (connected s) (reconnectAttempts s) m
          (promises s) (timers s) (fileWatcher s) (sent s) (effects s).

Definition set_promises (ps : list Promise) (s : State) : State :=
  mkState (websocket s) (connected s) (reconnectAttempts s)
          (pendingRequests s) ps (timers s) (fileWatcher s) (sent s)
          (effects s).

Definition set_timers (ts : list (Timer TimerCallback)) (s : State) : State :=
  mkState (websocket s) (connected s) (reconnectAttempts s)
          (pendingRequests s) (promises s) ts (fileWatcher s) (sent s)
          (effects s).

Definition set_fileWatcher (b : bool) (s : State) : State :=
  mkState (websocket s) (connected s) (reconnectAttempts s)
          (pendingRequests s) (promises s) (timers s) b (sent s) (effects s).

Definition send (m : ServerMessage) (s : State) : State :=
  mkState (websocket s) (connected s) (reconnectAttempts s)
          (pendingRequests s) (promises s) (timers s) (fileWatcher s)
          (sent s ++ [m]) (effects s).

Definition effect (e : Effect) (s : State) : State :=
  mkState (websocket s) (connected s) (reconnectAttempts s)
          (pendingRequests s) (promises s) (timers s) (fileWatcher s)
          (sent s) (effects s ++ [e]).

(** *** Promises *)

Definition settle (p : nat) (v : Promise) (ps : list Promise) : list Promise :=
  match ps !! p with
  | Some Pending => <[p := v]> ps
  | _ => ps
  end.

Definition resolve (p : nat) (d : Data) := settle p (Fulfilled d).
Definition reject (p : nat) (reason : string) := settle p (Rejected reason).

(** The messages of the errors the client raises. *)
Definition NotConnected : string := "WebSocket not connected".
Definition TimeoutError : string := "Request timeout".
Definition ConnectionClosed : string := "Connection closed".

(** *** Messages *)

Definition messageHandlers : gmap string Handler :=
  <["file_changed" := handleRemoteFileChange]>
    (<["error" := showServerError]>
       (<["device_list" := notifyDeviceList]>
          (<["build_output" := notifyBuildOutput]>
             (<["simulator_frame" := notifySimulatorFrame]> ∅)))).

(** The entry of [pendingRequests] that
    [message.id && this.pendingRequests.has(message.id)] lets through. *)
Definition matching (m : ServerMessage) (s : State)
  : option (string * PendingRequest) :=
  match id m with
  | Some i =>
      if String.eqb i "" then None
      else (fun r => (i, r)) <$> pendingRequests s !! i
  | None => None
  end.

Definition handleServerMessage (m : ServerMessage) (s : State) : State :=
  match matching m s with
  | Some (i, request) =>
      let s := set_timers (clearTimeout (timeout request) (timers s)) s in
      let s := set_pendingRequests (delete i (pendingRequests s)) s in
      if String.eqb (type m) "error"
      then set_promises
             (reject (promise request) (default "" (message (data m)))
                     (promises s)) s
      else set_promises (resolve (promise request) (data m) (promises s)) s
  | None =>
      match messageHandlers !! type m with
      | Some h => effect (handled h (data m)) s
      | None => effect (unhandled (type m)) s
      end
  end.

(** [sendMessage(message)]: [messageId] is what
    [Math.random().toString(36).substr(2, 9)] evaluates to and
    [sendError] what [websocket.send] throws, if it does.  Returns the
    promise. *)
Definition sendMessage (m : ServerMessage) (messageId : string)
    (sendError : option string) (s : State) : nat * State :=
  let p := List.length (promises s) in
  let s := set_promises (promises s ++ [Pending]) s in
  match websocket s with
  | Some OPEN =>
      let m := mkMessage (type m) (data m) (Some messageId) in
      let '(h, ts) := setTimeout (request_timeout messageId p) 30000 (timers s) in
      let s := set_timers ts s in
      let s :=
        set_pendingRequests
          (<[messageId := mkPending p h]> (pendingRequests s)) s in
      match sendError with
      | None => (p, send m s)
      | Some e =>
          let s := set_timers (clearTimeout h (timers s)) s in
          let s := set_pendingRequests (delete messageId (pendingRequests s)) s in
          (p, set_promises (reject p e (promises s)) s)
      end
  | _ => (p, set_promises (reject p NotConnected (promises s)) s)
  end.

(** *** Timers *)

Definition handleConnectionError (s : State) : State :=
  let s := effect (setContext_connected false) (set_connected false s) in
  if reconnectAttempts s <? maxReconnectAttempts
  then
    let s := set_reconnectAttempts (reconnectAttempts s + 1) s in
    let s :=
      effect
        (showMessage
           ("Connection lost. Attempting to reconnect ("
            +:+ Js.toString (reconnectAttempts s) +:+ "/"
            +:+ Js.toString maxReconnectAttempts +:+ ")...")) s in
    set_timers (setTimeout reconnect reconnectInterval (timers s)).2 s
  else
    effect (showMessage
              "Connection lost. Maximum reconnection attempts reached.") s.

(** The timer [h] fires.  A reconnection timer calls [connect], whose
    effects on this state arrive as later events. *)
Definition timerFired (h : nat) (s : State) : State :=
  match fire h (timers s) with
  | Some (request_timeout messageId p, ts) =>
      let s := set_timers ts s in
      let s := set_pendingRequests (delete messageId (pendingRequests s)) s in
      set_promises (reject p TimeoutError (promises s)) s
  | Some (reconnect, ts) => set_timers ts s
  | None => s
  end.

(** *** Connection *)

Definition handleDisconnection (s : State) : State :=
  let s := effect (setContext_connected false) (set_connected false s) in
  let s := set_fileWatcher false s in
  let '(ts, ps) :=
    fold_left
      (fun (acc : list (Timer TimerCallback) * list Promise)
           (kv : string * PendingRequest) =>
         (clearTimeout (timeout kv.2) acc.1,
          reject (promise kv.2) ConnectionClosed acc.2))
      (map_to_list (pendingRequests s)) (timers s, promises s) in
  set_pendingRequests ∅ (set_promises ps (set_timers ts s)).

Definition disconnect (s : State) : State :=
  effect (setContext_connected false)
    (set_connected false (set_fileWatcher false (set_websocket None s))).

(** [new WebSocket(url)] in [connectWebSocket] *)
Definition connectWebSocket (s : State) : State :=
  set_websocket (Some CONNECTING) s.

(** The socket reports "open": the client authenticates. *)
Definition onOpen (username : string) (messageId : string)
    (sendError : option string) (s : State) : State :=
  let s :=
    match websocket s with
    | Some _ => set_websocket (Some OPEN) s
    | None => s
    end in
  (sendMessage (mkMessage "authenticate" (mkData None username) None)
               messageId sendError s).2.

(** The socket reports "close". *)
Definition onClose (s : State) : State :=
  let s :=
    match websocket s with
    | Some _ => set_websocket (Some CLOSED) s
    | None => s
    end in
  handleDisconnection s.

(** The end of the "ready" handler of [connect]; [initializeProjectSync]
    has installed a file watcher if a workspace folder is open. *)
Definition onReady (workspace : bool) (s : State) : State :=
  effect (showMessage "Connected to macOS server")
    (effect (setContext_connected true)
       (set_reconnectAttempts 0
          (set_connected true
             (set_fileWatcher (workspace || fileWatcher s) s)))).

Definition isConnected (s : State) : bool :=
  connected s && match websocket s with Some OPEN => true | _ => false end.

(** One event on the connection. *)
Inductive step (s : State) : State -> Prop :=
| step_send m messageId sendError :
    step s (sendMessage m messageId sendError s).2
| step_message m :
    step s (handleServerMessage m s)
| step_timer h :
    step s (timerFired h s)
| step_connectWebSocket :
    step s (connectWebSocket s)
| step_open username messageId sendError :
    step s (onOpen username messageId sendError s)
| step_close :
    step s (onClose s)
| step_closing :
    match websocket s with Some _ => True | None => False end ->
    step s (set_websocket (Some CLOSING) s)
| step_ready workspace :
    step s (onReady workspace s)
| step_sshClose :
    step s (handleDisconnection s)
| step_sshError :
    step s (handleConnectionError s)
| step_disconnect :
    step s (disconnect s).

Definition reachable (s : State) : Prop := rtc step initial s.

(** *** Invariant of the connection *)

(** [ts'] is [ts] with some timers disarmed. *)
Definition disarmed (ts ts' : list (Timer TimerCallback)) : Prop :=
  List.length ts' = List.length ts
  /\ forall h t', ts' !! h = Some t' ->
       exists t, ts !! h = Some t /\ callback t' = callback t
                 /\ delay t' = delay t
                 /\ (status t' = Armed -> t' = t).

Record Inv (s : State) : Prop := mkInv {
  (* a pending request owns the armed timer of its deadline *)
  inv_entry : forall i r, pendingRequests s !! i = Some r ->
    timers s !! timeout r
    = Some (mkTimer (request_timeout i (promise r)) 30000 Armed);
  (* a deadline runs for thirty seconds, and while it is armed its
     request is not settled *)
  inv_deadline : forall h t i p,
    timers s !! h = Some t -> callback t = request_timeout i p ->
    delay t = 30000 /\ (p < List.length (promises s))%nat
    /\ (status t = Armed -> promises s !! p = Some Pending);
  (* a request has one deadline *)
  inv_promise : forall h1 h2 t1 t2 i1 i2 p,
    timers s !! h1 = Some t1 -> timers s !! h2 = Some t2 ->
    callback t1 = request_timeout i1 p ->
    callback t2 = request_timeout i2 p -> h1 = h2
}.

(** The state in which [sendMessage] calls [websocket.send]: a fresh
    promise, a fresh armed timer and the entry for the id [i]. *)
Definition registered (i : string) (s : State) : State :=
  set_pendingRequests
    (<[i := mkPending (List.length (promises s)) (List.length (timers s))]>
       (pendingRequests s))
    (set_timers
       (timers s
        ++ [mkTimer (request_timeout i (List.length (promises s)))
                    30000 Armed])
       (set_promises (promises s ++ [Pending]) s)).

(** The two halves of the loop of [handleDisconnection]. *)
Definition clearAll (l : list (string * PendingRequest))
    (ts : list (Timer TimerCallback)) : list (Timer TimerCallback) :=
  fold_left (fun ts kv => clearTimeout (timeout kv.2) ts) l ts.

Definition rejectAll (l : list (string * PendingRequest))
    (ps : list Promise) : list Promise :=
  fold_left (fun ps kv => reject (promise kv.2) ConnectionClosed ps) l ps.

(** The three steps that settle the pending request [r] of id [i]:
    its timer is cleared, its entry deleted, its promise settled. *)
Definition complete (i : string) (r : PendingRequest) (v : Promise)
    (s : State) : State :=
  set_promises (settle (promise r) v (promises s))
    (set_pendingRequests (delete i (pendingRequests s))
       (set_timers (clearTimeout (timeout r) (timers s)) s)).

(** *** Concrete inputs *)

(** The connection once the socket is open and the authentication
    request is on its way. *)
Definition opened : State :=
  onOpen "dev" "k3x9q2m1z" None (connectWebSocket initial).

Definition build : ServerMessage :=
  mkMessage "build_project" (mkData None "") None.

(** *** Further definitions used in the statements *)

(** The number of attempts stays within the limit. *)
Definition attemptsBounded (s : State) : Prop :=
  0 <= reconnectAttempts s <= maxReconnectAttempts.

(** Every message put on the wire carries an id. *)
Definition sentWithId (s : State) : Prop :=
  forall m, m ∈ sent s -> exists i, id m = Some i.

(** What a promise becomes when the reply [m] settles it. *)
Definition settledBy (m : ServerMessage) : Promise :=
  if String.eqb (type m) "error"
  then Rejected (default "" (message (data m)))
  else Fulfilled (data m).

End Connection.

(** ** iOSServer (server/ios-server.ts): the dispatch of client messages *)

Module Server.

(** How a handler ends. *)
Inductive Result :=
| returns (data : Connection.Data)
| throws (message : string).

(** A value of [clients]; [websocket] identifies the socket. *)
Record ClientSession := mkSession {
  id : string;
  username : string;
  projectPath : string;
  websocket : nat
}.

(** [getClientSession(ws)]: the first session of the socket, in the
    order of the map. *)
Fixpoint getClientSession (ws : nat) (clients : list (string * ClientSession))
  : option ClientSession :=
  match clients with
  | [] => None
  | (_, session) :: rest =>
      if decide (websocket session = ws) then Some session
      else getClientSession ws rest
  end.

(** [clients.delete(key)] *)
Fixpoint delete_key (k : string) (clients : list (string * ClientSession))
  : list (string * ClientSession) :=
  match clients with
  | [] => []
  | (k', v) :: rest =>
      if decide (k = k') then rest else (k', v) :: delete_key k rest
  end.

Definition removeClient (ws : nat) (clients : list (string * ClientSession))
  : list (string * ClientSession) :=
  match getClientSession ws clients with
  | Some session => delete_key (id session) clients
  | None => clients
  end.

(** [handleAuthenticate]: [sessionId] is what the random source gives
    and [projectPath] what [path.join] makes of the home directory and
    the user name, which the client sends as the payload. *)
Definition handleAuthenticate (ws : nat) (data : Connection.Data)
    (sessionId projectPath : string) (clients : list (string * ClientSession))
  : list (string * ClientSession) * Result :=
  (JsMap.set sessionId
     (mkSession sessionId (Connection.payload data) projectPath ws) clients,
   returns (Connection.mkData None (sessionId +:+ " " +:+ projectPath))).

(** The handlers that start with
    [if (!session) throw new Error("Not authenticated")]. *)
Definition needsSession (type : string) : bool :=
  bool_decide
    (type ∈ ["sync_file"; "sync_project"; "delete_file"; "build_project";
             "run_project"; "request_frame"]).

(** The other cases of the [switch], apart from "authenticate". *)
Definition withoutSession (type : string) : bool :=
  bool_decide
    (type ∈ ["get_devices"; "select_device"; "simulator_input";
             "deploy_device"; "execute_command"]).

(** The handlers that touch neither files nor processes return at
    once; the payload stands for [{ success: true }], with the device
    for "select_device". *)
Definition immediate (type : string) (data : Connection.Data)
  : option Connection.Data :=
  if String.eqb type "run_project" then Some (Connection.mkData None "success")
  else if String.eqb type "deploy_device"
  then Some (Connection.mkData None "success")
  else if String.eqb type "select_device"
  then Some (Connection.mkData None ("success " +:+ Connection.payload data))
  else None.

(** A handler once it is entered and, where it needs one, has found
    its session: [ran] is what the file system and the processes make
    of it. *)
Definition enter (ran : Result) (type : string) (data : Connection.Data)
  : Result :=
  match immediate type data with
  | Some d => returns d
  | None => ran
  end.

(** The [switch] of [handleClientMessage]. *)
Definition dispatch (ran : Result) (ws : nat)
    (sessionId projectPath : string) (m : Connection.ServerMessage)
    (clients : list (string * ClientSession))
  : list (string * ClientSession) * Result :=
  let type := Connection.type m in
  if String.eqb type "authenticate"
  then handleAuthenticate ws (Connection.data m) sessionId projectPath clients
  else if needsSession type
  then match getClientSession ws clients with
       | None => (clients, throws "Not authenticated")
       | Some _ => (clients, enter ran type (Connection.data m))
       end
  else if withoutSession type
  then (clients, enter ran type (Connection.data m))
  else (clients, throws ("Unknown message type: " +:+ type)).

(** [sendResponse] and [sendError], as the message handed to
    [sendMessage]. *)
Definition answer (m : Connection.ServerMessage) (r : Result)
  : Connection.ServerMessage :=
  match r with
  | returns d =>
      Connection.mkMessage (Connection.type m +:+ "_response") d
                           (Connection.id m)
  | throws e =>
      Connection.mkMessage "error" (Connection.mkData (Some e) "")
                           (Connection.id m)
  end.

(** [handleClientMessage]: the sessions afterwards, and the answer
    that goes out if the socket is still open. *)
Definition handleClientMessage (ran : Result) (ws : nat) (open : bool)
    (sessionId projectPath : string) (m : Connection.ServerMessage)
    (clients : list (string * ClientSession))
  : list (string * ClientSession) * option Connection.ServerMessage :=
  let '(clients, r) := dispatch ran ws sessionId projectPath m clients in
  (clients, if open then Some (answer m r) else None).

(** *** The requests of the reload strategies, as this server sees them *)

Definition requestType (req : HotReload.Request) : string :=
  match req with
  | HotReload.swiftui_preview_update _ _ _ => "swiftui_preview_update"
  | HotReload.incremental_build _ _ => "incremental_build"
  | HotReload.apply_incremental_update _ => "apply_incremental_update"
  | HotReload.sync_file _ _ _ => "sync_file"
  | HotReload.build_project => "build_project"
  | HotReload.run_project => "run_project"
  | HotReload.asset_update _ => "asset_update"
  end.

(** How the promise of a request of the reload service ends when this
    server answers it over an open connection: the client rejects with
    the message of an "error" answer and resolves with the data of any
    other; no handler of this server returns warnings.  [run] is what
    the file system and the processes make of each request. *)
Definition reply (run : HotReload.Request -> Result) (ws : nat)
    (clients : list (string * ClientSession)) (req : HotReload.Request)
  : HotReload.Reply :=
  match (dispatch (run req) ws "" ""
           (Connection.mkMessage (requestType req) (Connection.mkData None "")
                                 None) clients).2 with
  | returns _ => HotReload.resolved (HotReload.mkResponse None)
  | throws e => HotReload.rejected e
  end.

(** *** Invariant of the sessions *)

(** Every session is stored under its own id, and no id twice. *)
Definition wf (clients : list (string * ClientSession)) : Prop :=
  NoDup (JsMap.keys clients) /\ Forall (fun kv => kv.1 = id kv.2) clients.

(** The number of sessions of a socket. *)
Definition sessionsOf (ws : nat) (clients : list (string * ClientSession))
  : nat :=
  List.length
    (filter (fun kv : string * ClientSession => websocket kv.2 = ws) clients).

(** *** Concrete inputs *)

(** One client, authenticated on socket 1. *)
Definition oneClient : list (string * ClientSession) :=
  (handleAuthenticate 1 (Connection.mkData None "dev") "q7w8e9r0t"
                      "/Users/dev/ios-vscode-projects/dev" []).1.

End Server.

(** * Proofs *)

(** * Facts about the insertion-ordered map *)

Section JsMapFacts.
Context {V : Type}.
Implicit Types (m : list (string * V)) (k : string) (v : V).

Lemma get_set_eq m k v : JsMap.get k (JsMap.set k v m) = Some v.
Proof.
  induction m as [|[k' v'] m IH]; simpl.
  - by rewrite decide_True.
  - destruct (decide (k = k')) as [->|Hne]; simpl.
    + by rewrite decide_True.
    + by rewrite decide_False.
Qed.

Lemma get_set_ne m k k' v :
  k <> k' -> JsMap.get k' (JsMap.set k v m) = JsMap.get k' m.
Proof.
  intros Hne. induction m as [|[k0 v0] m IH]; simpl.
  - by rewrite decide_False.
  - destruct (decide (k = k0)) as [->|Hk]; simpl.
    + by rewrite !decide_False.
    + by rewrite IH.
Qed.

Lemma elem_of_keys_set m k k' v :
  k' ∈ JsMap.keys (JsMap.set k v m) <-> k' = k \/ k' ∈ JsMap.keys m.
Proof.
  unfold JsMap.keys. induction m as [|[k0 v0] m IH]; simpl.
  - rewrite list_elem_of_singleton, elem_of_nil. tauto.
  - destruct (decide (k = k0)) as [->|Hk]; simpl.
    + rewrite !elem_of_cons. tauto.
    + rewrite !elem_of_cons, IH. tauto.
Qed.

Lemma NoDup_keys_set m k v :
  NoDup (JsMap.keys m) -> NoDup (JsMap.keys (JsMap.set k v m)).
Proof.
  unfold JsMap.keys. induction m as [|[k0 v0] m IH]; simpl; intros Hnd.
  - apply NoDup_singleton.
  - apply NoDup_cons in Hnd as [Hnotin Hnd].
    destruct (decide (k = k0)) as [->|Hk]; simpl.
    + by apply NoDup_cons.
    + apply NoDup_cons. split; [|by apply IH].
      intros Hin. apply (elem_of_keys_set m k k0 v) in Hin.
      destruct Hin as [->|Hin]; [done|]. by apply Hnotin.
Qed.

Lemma get_None_keys m k : JsMap.get k m = None <-> k ∉ JsMap.keys m.
Proof.
  unfold JsMap.keys. induction m as [|[k0 v0] m IH]; simpl.
  - split; [intros _; apply not_elem_of_nil | done].
  - rewrite not_elem_of_cons. destruct (decide (k = k0)) as [->|Hk].
    + split; [done | intros [? _]; done].
    + rewrite IH. tauto.
Qed.

Lemma get_Some_elem_of m k v :
  NoDup (JsMap.keys m) -> JsMap.get k m = Some v <-> (k, v) ∈ m.
Proof.
  unfold JsMap.keys. induction m as [|[k0 v0] m IH]; simpl; intros Hnd.
  - split; [done | intros H; by apply elem_of_nil in H].
  - apply NoDup_cons in Hnd as [Hnotin Hnd]. rewrite elem_of_cons.
    destruct (decide (k = k0)) as [->|Hk].
    + split.
      * intros [= ->]. by left.
      * intros [[= ->]|Hin]; [done|].
        exfalso. apply Hnotin. apply list_elem_of_fmap. by exists (k0, v).
    + rewrite (IH Hnd). split; [by right | intros [[= ? ?]|?]; done].
Qed.

Lemma filter_key_absent m k :
  k ∉ JsMap.keys m -> filter (fun kv : string * V => kv.1 = k) m = [].
Proof.
  unfold JsMap.keys. induction m as [|[k0 v0] m IH]; simpl; [done|].
  rewrite not_elem_of_cons. intros [Hne Hnotin].
  rewrite filter_cons_False by (simpl; congruence). by apply IH.
Qed.

(** The records queued for one path after a [set] for it. *)
Lemma filter_key_set m k v :
  NoDup (JsMap.keys m) ->
  filter (fun kv : string * V => kv.1 = k) (JsMap.set k v m) = [(k, v)].
Proof.
  unfold JsMap.keys. induction m as [|[k0 v0] m IH]; simpl; intros Hnd.
  - by rewrite filter_cons_True.
  - apply NoDup_cons in Hnd as [Hnotin Hnd].
    destruct (decide (k = k0)) as [->|Hk].
    + rewrite filter_cons_True by done. f_equal.
      by apply filter_key_absent.
    + rewrite filter_cons_False by (simpl; congruence). by apply IH.
Qed.

End JsMapFacts.

(** * Facts about timers *)

Section TimerFacts.
Context {A : Type}.
Implicit Types (ts : list (Timer A)) (t : Timer A) (h i : nat).

Lemma length_clearTimeout h ts : List.length (clearTimeout h ts) = List.length ts.
Proof.
  unfold clearTimeout. destruct (ts !! h) as [t|]; [|done].
  destruct (status t); by rewrite ?length_insert.
Qed.

(** A timer that is armed after [clearTimeout h] is not [h], and was
    armed before. *)
Lemma clearTimeout_armed h ts i t :
  clearTimeout h ts !! i = Some t -> status t = Armed ->
  i <> h /\ ts !! i = Some t.
Proof.
  unfold clearTimeout. destruct (ts !! h) as [t0|] eqn:Hh.
  - destruct (status t0) eqn:Hs.
    + destruct (decide (i = h)) as [->|Hne].
      * rewrite list_lookup_insert_eq by (by eapply lookup_lt_Some).
        intros [= <-]. done.
      * rewrite list_lookup_insert_ne by done. done.
    + intros Hi Ht. split; [|done]. intros ->. congruence.
    + intros Hi Ht. split; [|done]. intros ->. congruence.
  - intros Hi _. split; [|done]. intros ->. congruence.
Qed.

(** The other timers are as they were. *)
Lemma clearTimeout_other h ts i :
  i <> h -> clearTimeout h ts !! i = ts !! i.
Proof.
  intros Hne. unfold clearTimeout. destruct (ts !! h) as [t0|]; [|done].
  destruct (status t0); [|done..]. by rewrite list_lookup_insert_ne.
Qed.

Lemma clearTimeout_not_armed h ts t :
  clearTimeout h ts !! h = Some t -> status t <> Armed.
Proof. intros Hh Hs. by destruct (clearTimeout_armed h ts h t Hh Hs). Qed.

Lemma fire_Some h ts cb ts' :
  fire h ts = Some (cb, ts') ->
  exists t, ts !! h = Some t /\ status t = Armed /\ callback t = cb
            /\ ts' = <[h := disarm Fired t]> ts.
Proof.
  unfold fire. destruct (ts !! h) as [t|]; [|done].
  destruct (status t) eqn:Hs; [|done..]. intros [= <- <-]. by exists t.
Qed.

Lemma fire_armed h ts cb ts' i t :
  fire h ts = Some (cb, ts') ->
  ts' !! i = Some t -> status t = Armed -> i <> h /\ ts !! i = Some t.
Proof.
  intros (t0 & Hh & _ & _ & ->)%fire_Some.
  destruct (decide (i = h)) as [->|Hne].
  - rewrite list_lookup_insert_eq by (by eapply lookup_lt_Some).
    intros [= <-]. done.
  - by rewrite list_lookup_insert_ne.
Qed.

Lemma setTimeout_lookup cb ms ts :
  (setTimeout cb ms ts).2 !! (setTimeout cb ms ts).1
  = Some (mkTimer cb ms Armed).
Proof. unfold setTimeout. simpl. by rewrite list_lookup_middle. Qed.

Lemma setTimeout_old cb ms ts i :
  i <> List.length ts -> (setTimeout cb ms ts).2 !! i = ts !! i.
Proof.
  intros Hne. unfold setTimeout. simpl.
  destruct (decide (i < List.length ts)%nat) as [Hlt|Hge].
  - by rewrite lookup_app_l.
  - rewrite !lookup_ge_None_2; [done|lia|]. rewrite length_app. simpl. lia.
Qed.

End TimerFacts.

(** * The reload orchestrator *)

Module ReloadProofs.
Import HotReload.

(** ** Effects on the user interface leave the rest alone *)

Lemma core_appendLine line s : core (appendLine line s) = core s.
Proof. reflexivity. Qed.

Lemma core_showNotification m sev s : core (showNotification m sev s) = core s.
Proof. reflexivity. Qed.

Lemma core_updateStatusBar s : core (updateStatusBar s) = core s.
Proof. reflexivity. Qed.

Lemma core_appendItems title l s : core (appendItems title l s) = core s.
Proof.
  destruct l as [[|x l]|]; try done.
  unfold appendItems.
  generalize (x :: l), (appendLine title s), (core_appendLine title s).
  intros ws. induction ws as [|w ws IH]; intros s0 Hs0; simpl; [done|].
  apply IH. by rewrite core_appendLine.
Qed.

Lemma core_showReloadResult r s : core (showReloadResult r s) = core s.
Proof.
  unfold showReloadResult.
  destruct (negb (success r) || (10000 <? duration r));
    rewrite ?core_showNotification, !core_appendItems; done.
Qed.

Lemma core_fields s s' :
  core s' = core s ->
  changeQueue s' = changeQueue s /\ isReloading s' = isReloading s
  /\ inflight s' = inflight s /\ reloadHistory s' = reloadHistory s
  /\ buildCache s' = buildCache s
  /\ lastSuccessfulBuild s' = lastSuccessfulBuild s
  /\ config s' = config s /\ timers s' = timers s
  /\ debounceTimer s' = debounceTimer s.
Proof. unfold core. intros [= -> -> -> -> -> -> -> -> ->]. repeat split. Qed.

Lemma Inv_fields s s' :
  changeQueue s' = changeQueue s -> isReloading s' = isReloading s ->
  inflight s' = inflight s -> reloadHistory s' = reloadHistory s ->
  timers s' = timers s -> debounceTimer s' = debounceTimer s ->
  Inv s -> Inv s'.
Proof.
  intros Hq Hr Hi Hh Ht Hd [Hk Hg Hb Hl Htm]. split.
  - by rewrite Hq.
  - unfold guarded. by rewrite Hi, Hr.
  - intros c. rewrite Hi, Hq. apply Hb.
  - by rewrite Hh.
  - rewrite Ht, Hd. apply Htm.
Qed.

Lemma Inv_core s s' : core s' = core s -> Inv s -> Inv s'.
Proof.
  intros Hc. apply core_fields in Hc as (? & ? & ? & ? & _ & _ & _ & ? & ?).
  by apply Inv_fields.
Qed.

(** ** The invariant holds in every reachable state *)

Lemma Inv_initial cfg : Inv (initial cfg).
Proof.
  split; simpl.
  - apply NoDup_nil_2.
  - by left.
  - intros c Hc. by apply elem_of_nil in Hc.
  - lia.
  - done.
Qed.

(** After [triggerHotReload] the new timer is the only armed one. *)
Lemma triggerHotReload_timer force s :
  (forall h t, timers s !! h = Some t -> status t = Armed ->
               debounceTimer s = Some h) ->
  exists h,
    debounceTimer (triggerHotReload force s) = Some h
    /\ timers (triggerHotReload force s) !! h
       = Some (mkTimer force (debounceDelay (config s)) Armed)
    /\ forall i t, timers (triggerHotReload force s) !! i = Some t ->
                   status t = Armed -> i = h.
Proof.
  intros Htm. unfold triggerHotReload.
  set (ts := match debounceTimer s with
             | Some h => clearTimeout h (timers s)
             | None => timers s
             end).
  exists (List.length ts). simpl. split; [done|].
  split; [by rewrite list_lookup_middle|].
  intros i t Hi Ht.
  destruct (decide (i = List.length ts)) as [->|Hne]; [done|]. exfalso.
  pose proof (setTimeout_old force (debounceDelay (config s)) ts i Hne) as Ho.
  unfold setTimeout in Ho. simpl in Ho. rewrite Ho in Hi. unfold ts in Hi.
  destruct (debounceTimer s) as [h0|] eqn:Hd.
  - destruct (clearTimeout_armed h0 (timers s) i t Hi Ht) as [Hne0 Hi0].
    specialize (Htm i t Hi0 Ht). congruence.
  - specialize (Htm i t Hi Ht). congruence.
Qed.

Lemma Inv_triggerHotReload force s : Inv s -> Inv (triggerHotReload force s).
Proof.
  intros [Hk Hg Hb Hh Htm]. split; [done..|].
  destruct (triggerHotReload_timer force s Htm) as (h & Hd & _ & Hu).
  intros i t Hi Ht. rewrite Hd. f_equal. symmetry. by apply (Hu i t).
Qed.

Lemma Inv_set_changeQueue k v s :
  Inv s -> Inv (set_changeQueue (JsMap.set k v (changeQueue s)) s).
Proof.
  intros [Hk Hg Hb Hh Htm]. split; simpl; [|done| |done..].
  - by apply NoDup_keys_set.
  - intros c Hc f Hf. apply elem_of_keys_set. right. by apply (Hb c Hc).
Qed.

Lemma Inv_handleFileChange R connected relativePath ev fileContent now s :
  Inv s -> Inv (handleFileChange R connected relativePath ev fileContent now s).
Proof.
  intros HI. unfold handleFileChange.
  destruct (negb (enabled (config s)) || negb connected); [done|].
  destruct (shouldExcludeFile R (config s) relativePath); [done|].
  destruct (match ev with ev_delete => Some "" | _ => fileContent end);
    [|done].
  by apply Inv_triggerHotReload, Inv_set_changeQueue.
Qed.

Lemma Inv_handleSwiftUIChange R connected server relativePath fileContent now s :
  Inv s ->
  Inv (handleSwiftUIChange R connected server relativePath fileContent now s).
Proof.
  intros HI. unfold handleSwiftUIChange.
  destruct (negb (swiftUIPreviewMode (config s)));
    [by apply Inv_handleFileChange|].
  destruct fileContent as [text|].
  - destruct (server _).
    + by apply (Inv_core s).
    + apply Inv_handleFileChange. by apply (Inv_core s).
  - apply Inv_handleFileChange. by apply (Inv_core s).
Qed.

Lemma files_analyzeChanges q : files (analyzeChanges q) = JsMap.keys q.
Proof.
  unfold analyzeChanges. by destruct (fold_left _ _ _) as [[ty rebuild] comps].
Qed.

Lemma Inv_begin force now s :
  Inv s -> Inv (performHotReload_begin force now s).2.
Proof.
  intros [Hk Hg Hb Hh Htm]. unfold performHotReload_begin.
  destruct (isReloading s) eqn:Hr; simpl.
  - by split.
  - destruct Hg as [[Hi _]|[c [_ ?]]]; [|congruence].
    split; simpl; [done| | |done..].
    + right. rewrite Hi. by eexists.
    + intros c. rewrite Hi. simpl. intros ->%list_elem_of_singleton.
      simpl. by rewrite files_analyzeChanges.
Qed.

Lemma length_history_bound {A} (h : list A) (x : A) :
  (List.length h <= 50)%nat ->
  (List.length (if (50 <? List.length (h ++ [x]))%nat
                then tail (h ++ [x]) else h ++ [x]) <= 50)%nat.
Proof.
  intros Hh. destruct (Nat.ltb_spec 50 (List.length (h ++ [x]))) as [Hlt|Hge].
  - rewrite length_tl, length_app in *. simpl in *. lia.
  - done.
Qed.

Lemma Inv_finally result s :
  NoDup (JsMap.keys (changeQueue s)) -> inflight s = [] ->
  (List.length (reloadHistory s) <= 50)%nat ->
  (forall h t, timers s !! h = Some t -> status t = Armed ->
               debounceTimer s = Some h) ->
  Inv (finally result s).
Proof.
  intros Hk Hi Hh Htm. split; simpl; [done| | | |done].
  - by left.
  - rewrite Hi. intros c Hc. by apply elem_of_nil in Hc.
  - by apply length_history_bound.
Qed.

Lemma inflight_lookup s i c :
  guarded s -> inflight s !! i = Some c -> inflight s = [c] /\ i = 0%nat.
Proof.
  intros [[Hi _]|[c' [Hi _]]]; rewrite Hi; [done|].
  destruct i as [|i]; simpl; [by intros [= ->] | done].
Qed.

Lemma Inv_end i o now s : Inv s -> Inv (performHotReload_end i o now s).
Proof.
  intros HI. unfold performHotReload_end.
  destruct (inflight s !! i) as [c|] eqn:Hc; [|done].
  destruct HI as [Hk Hg Hb Hh Htm].
  destruct (inflight_lookup s i c Hg Hc) as [Hi ->].
  destruct o as [result|m].
  - apply Inv_finally;
      destruct (core_fields _ _ (core_showReloadResult result
        (set_changeQueue
           (JsMap.clear (changeQueue (updateBuildCache
              (set_inflight (delete 0%nat (inflight s)) s))))
           (updateBuildCache (set_inflight (delete 0%nat (inflight s)) s)))))
        as (Hq' & _ & Hi' & Hh' & _ & _ & _ & Ht' & Hd');
      rewrite ?Hq', ?Hi', ?Hh', ?Ht', ?Hd'; simpl.
    + apply NoDup_nil_2.
    + by rewrite Hi.
    + done.
    + apply Htm.
  - apply Inv_finally; simpl; [done | by rewrite Hi | done..].
Qed.

Lemma Inv_step R s s' : step R s s' -> Inv s -> Inv s'.
Proof.
  intros Hstep HI. destruct Hstep.
  - by apply Inv_handleFileChange.
  - by apply Inv_handleSwiftUIChange.
  - unfold handleConfigChange. apply Inv_triggerHotReload.
    by apply (Inv_fields s).
  - by apply (Inv_core s).
  - unfold debounceFired in H.
    destruct (fire h (timers s)) as [[force ts]|] eqn:Hf; [|done].
    injection H as H.
    pose proof (Inv_begin force now (set_debounce (debounceTimer s) ts s)) as HB.
    rewrite H in HB. apply HB. destruct HI as [Hk Hg Hb Hh Htm].
    split; [done..|]. simpl. intros i t Hi Ht.
    destruct (fire_armed h (timers s) force ts i t Hf Hi Ht) as [_ Hi0].
    by apply (Htm i t).
  - unfold forceReload. destruct (negb connected); simpl.
    + by apply (Inv_core s).
    + apply Inv_begin. by apply (Inv_core s).
  - by apply Inv_end.
  - by apply (Inv_fields s).
  - by apply (Inv_fields s).
  - by apply (Inv_fields s).
Qed.

Lemma reachable_Inv R s : reachable R s -> Inv s.
Proof.
  intros [cfg Hrtc].
  apply (rtc_ind_r (R := step R) (fun s => Inv s) (initial cfg));
    [ | | exact Hrtc].
  - apply Inv_initial.
  - intros s1 s2 _ Hstep IH. by apply (Inv_step R s1).
Qed.

(** ** The build cache after [updateBuildCache] *)

Lemma cacheAll_absent q acc k :
  k ∉ JsMap.keys q ->
  (fold_left cacheChange q acc).1 !! k = acc.1 !! k
  /\ (fold_left cacheChange q acc).2 !! k = acc.2 !! k.
Proof.
  unfold JsMap.keys. revert acc.
  induction q as [|[k0 c0] q IH]; intros acc; simpl; [done|].
  rewrite not_elem_of_cons. intros [Hne Hnotin].
  destruct (IH (cacheChange acc (k0, c0)) Hnotin) as [-> ->]. simpl.
  by rewrite !lookup_insert_ne.
Qed.

Lemma cacheAll_present q acc k c :
  NoDup (JsMap.keys q) -> JsMap.get k q = Some c ->
  (fold_left cacheChange q acc).1 !! k = Some (content c)
  /\ (fold_left cacheChange q acc).2 !! k = Some (entryOf c).
Proof.
  unfold JsMap.keys. revert acc.
  induction q as [|[k0 c0] q IH]; intros acc; simpl; [done|].
  intros [Hnotin Hnd]%NoDup_cons.
  destruct (decide (k = k0)) as [->|Hne].
  - intros [= ->].
    destruct (cacheAll_absent q (cacheChange acc (k0, c)) k0 Hnotin)
      as [-> ->].
    simpl. by rewrite !lookup_insert_eq.
  - intros Hget. by apply IH.
Qed.

(** ** The configuration *)

(** C10: [updateConfiguration] takes every field that the partial
    object names from it, keeps every other field of the configuration,
    and changes nothing else of the service but the status bar, which
    is redrawn. *)
Theorem updateConfiguration_merge (newConfig : PartialConfig) (s : State) :
  let c := config s in
  let s' := updateConfiguration newConfig s in
  let c' := config s' in
  match p_enabled newConfig with
  | Some v => enabled c' = v | None => enabled c' = enabled c end
  /\ match p_debounceDelay newConfig with
     | Some v => debounceDelay c' = v
     | None => debounceDelay c' = debounceDelay c end
  /\ match p_incrementalCompilation newConfig with
     | Some v => incrementalCompilation c' = v
     | None => incrementalCompilation c' = incrementalCompilation c end
  /\ match p_swiftUIPreviewMode newConfig with
     | Some v => swiftUIPreviewMode c' = v
     | None => swiftUIPreviewMode c' = swiftUIPreviewMode c end
  /\ match p_autoSave newConfig with
     | Some v => autoSave c' = v | None => autoSave c' = autoSave c end
  /\ match p_excludePatterns newConfig with
     | Some v => excludePatterns c' = v
     | None => excludePatterns c' = excludePatterns c end
  /\ changeQueue s' = changeQueue s
  /\ buildCache s' = buildCache s
  /\ lastSuccessfulBuild s' = lastSuccessfulBuild s
  /\ isReloading s' = isReloading s
  /\ reloadHistory s' = reloadHistory s
  /\ inflight s' = inflight s
  /\ debounceTimer s' = debounceTimer s
  /\ timers s' = timers s
  /\ outputChannel s' = outputChannel s
  /\ notifications s' = notifications s.
Proof.
  destruct newConfig as [[e|] [d|] [i|] [p|] [a|] [x|]]; simpl;
    repeat split.
Qed.

(** ** Change analysis *)

(** C2: a batch of the project manifest and one interface-only file.
    Alone, the manifest is tagged [dependency] and the view [ui_only].
    Together they force the full rebuild in either order, but the tag
    of the batch is that of the file analysed last: [dependency] when
    the view comes first, [ui_only] when the manifest comes first, and
    not the most severe of the two. *)
Theorem analyzeChanges_manifest_then_view :
  type (analyzeChanges [manifest]) = dependency
  /\ type (analyzeChanges [loginView]) = ui_only
  /\ requiresFullRebuild (analyzeChanges [loginView]) = false
  /\ type (analyzeChanges [loginView; manifest]) = dependency
  /\ requiresFullRebuild (analyzeChanges [loginView; manifest]) = true
  /\ type (analyzeChanges [manifest; loginView]) = ui_only
  /\ requiresFullRebuild (analyzeChanges [manifest; loginView]) = true
  /\ estimatedRebuildTime (analyzeChanges [manifest; loginView]) = 400.
Proof. vm_compute. repeat split. Qed.

(** ** The change queue *)

Lemma handleFileChange_records R path ev text now s :
  enabled (config s) = true ->
  shouldExcludeFile R (config s) path = false ->
  handleFileChange R true path ev (Some text) now s
  = triggerHotReload false
      (set_changeQueue
         (JsMap.set path (mkChange now (captured ev text)) (changeQueue s)) s).
Proof.
  intros He Hx. unfold handleFileChange. rewrite He, Hx. simpl.
  by destruct ev.
Qed.

Lemma filter_keys {V} (q : list (string * V)) k :
  filter (fun f => f = k) (JsMap.keys q)
  = JsMap.keys (filter (fun kv => kv.1 = k) q).
Proof.
  unfold JsMap.keys. induction q as [|[k0 v0] q IH]; simpl; [done|].
  destruct (decide (k0 = k)) as [->|Hne].
  - rewrite !filter_cons_True by done. rewrite fmap_cons. f_equal. apply IH.
  - by rewrite !filter_cons_False.
Qed.

(** C4, as stated: no reading of the queued record gives back the kind
    of the event that wrote it, since a creation and a modification of
    a file leave the same record. *)
Lemma change_kind_not_recorded :
  ~ exists kind : Change -> FileEvent,
      forall k2 r,
        JsMap.get "Sources/App.swift"
          (changeQueue
             (handleFileChange noExclusion true "Sources/App.swift" k2
                (Some "let b = 2") 20
                (handleFileChange noExclusion true "Sources/App.swift"
                   ev_create (Some "let a = 1") 10
                   (initial defaultConfig)))) = Some r ->
        kind r = k2.
Proof.
  intros [kind Hkind].
  pose proof (Hkind ev_create (mkChange 20 "let b = 2") eq_refl) as H1.
  pose proof (Hkind ev_change (mkChange 20 "let b = 2") eq_refl) as H2.
  congruence.
Qed.

(** C4, amended: two events for one path, both recorded, leave exactly
    one record for the path, with the content captured by the second
    (empty for a deletion) and its time stamp; the path occurs once in
    the batch of the next analysis. *)
Theorem record_last_write_wins R s path k1 text1 t1 k2 text2 t2 :
  reachable R s ->
  enabled (config s) = true ->
  shouldExcludeFile R (config s) path = false ->
  let s1 := handleFileChange R true path k1 (Some text1) t1 s in
  let s2 := handleFileChange R true path k2 (Some text2) t2 s1 in
  filter (fun kv => kv.1 = path) (changeQueue s2)
  = [(path, mkChange t2 (captured k2 text2))]
  /\ JsMap.get path (changeQueue s2) = Some (mkChange t2 (captured k2 text2))
  /\ filter (fun f => f = path) (files (analyzeChanges (changeQueue s2)))
     = [path].
Proof.
  intros Hreach He Hx s1 s2.
  assert (HI1 : Inv s1) by (apply Inv_handleFileChange, (reachable_Inv R), Hreach).
  assert (Hs2 : changeQueue s2
                = JsMap.set path (mkChange t2 (captured k2 text2)) (changeQueue s1)).
  { unfold s2. rewrite handleFileChange_records; [done| |].
    - unfold s1. by rewrite handleFileChange_records.
    - unfold s1. by rewrite handleFileChange_records. }
  pose proof (filter_key_set (changeQueue s1) path
                (mkChange t2 (captured k2 text2)) (inv_keys _ HI1)) as Hf.
  rewrite Hs2. split; [done|]. split; [apply get_set_eq|].
  by rewrite files_analyzeChanges, filter_keys, Hf.
Qed.

Lemma record_last_write_wins_witness :
  reachable noExclusion (initial defaultConfig)
  /\ filter (fun kv => kv.1 = "Sources/App.swift")
       (changeQueue
          (handleFileChange noExclusion true "Sources/App.swift" ev_delete
             (Some "let b = 2") 20
             (handleFileChange noExclusion true "Sources/App.swift"
                ev_create (Some "let a = 1") 10 (initial defaultConfig))))
     = [("Sources/App.swift", mkChange 20 "")].
Proof.
  assert (Hr : reachable noExclusion (initial defaultConfig))
    by (exists defaultConfig; apply rtc_refl).
  split; [exact Hr|].
  apply (record_last_write_wins noExclusion (initial defaultConfig)
           "Sources/App.swift" ev_create "let a = 1" 10
           ev_delete "let b = 2" 20 Hr eq_refl eq_refl).
Defined.

(** ** The guard of the reload cycle *)

Lemma begin_skips force now s :
  isReloading s = true ->
  performHotReload_begin force now s = (skipped, appendLine skipLine s).
Proof. intros Hr. unfold performHotReload_begin. by rewrite Hr. Qed.

Lemma begin_starts force now s :
  isReloading s = false ->
  exists c, (performHotReload_begin force now s).1 = started c
            /\ inflight (performHotReload_begin force now s).2
               = inflight s ++ [c]
            /\ isReloading (performHotReload_begin force now s).2 = true
            /\ (force = true -> strategy c = full).
Proof.
  intros Hr. unfold performHotReload_begin. rewrite Hr. simpl.
  eexists. repeat split. by intros ->.
Qed.

Lemma inflight_finally result s : inflight (finally result s) = inflight s.
Proof. reflexivity. Qed.

Lemma inflight_showReloadResult result s :
  inflight (showReloadResult result s) = inflight s.
Proof.
  by destruct (core_fields _ _ (core_showReloadResult result s))
    as (_ & _ & -> & _).
Qed.

Lemma end_fields i o now s c :
  inflight s !! i = Some c ->
  isReloading (performHotReload_end i o now s) = false
  /\ inflight (performHotReload_end i o now s) = delete i (inflight s).
Proof.
  intros Hc. unfold performHotReload_end. rewrite Hc.
  destruct o as [result|m]; [|done].
  split; [done|].
  by rewrite inflight_finally, inflight_showReloadResult.
Qed.

(** C1: in every reachable state at most one body of the cycle is
    suspended; a trigger that finds the guard set, be it the debounce
    timer or a forced reload, returns without starting one; and when the
    suspended body finishes, with a result or with an error, the guard
    is clear, no body is left, and the next trigger starts a cycle. *)
Theorem reload_cycles_exclusive R s :
  reachable R s ->
  (List.length (inflight s) <= 1)%nat
  /\ (isReloading s = true ->
      (forall force now,
         performHotReload_begin force now s = (skipped, appendLine skipLine s))
      /\ (forall h now r s',
            debounceFired h now s = Some (r, s') ->
            r = skipped /\ inflight s' = inflight s /\ isReloading s' = true)
      /\ (forall connected now,
            (forceReload connected now s).1 = skipped
            /\ inflight (forceReload connected now s).2 = inflight s
            /\ isReloading (forceReload connected now s).2 = true))
  /\ (forall i c o now,
        inflight s !! i = Some c ->
        let s' := performHotReload_end i o now s in
        isReloading s' = false /\ inflight s' = []
        /\ forall force now',
             exists c', (performHotReload_begin force now' s').1 = started c'
                        /\ inflight (performHotReload_begin force now' s').2
                           = [c']).
Proof.
  intros Hreach. pose proof (reachable_Inv R s Hreach) as [_ Hg _ _ _].
  split; [|split].
  - destruct Hg as [[-> _]|[c [-> _]]]; simpl; lia.
  - intros Hr. split; [|split].
    + intros force now. by apply begin_skips.
    + intros h now r s' Hf. unfold debounceFired in Hf.
      destruct (fire h (timers s)) as [[force ts]|]; [|done].
      rewrite begin_skips in Hf by done. by injection Hf as <- <-.
    + intros connected now. unfold forceReload.
      destruct (negb connected); [done|]. by rewrite begin_skips.
  - intros i c o now Hc s'.
    destruct (end_fields i o now s c Hc) as [Hr Hi].
    destruct (inflight_lookup s i c Hg Hc) as [Hs ->].
    rewrite Hs in Hi. simpl in Hi. fold s' in Hr, Hi.
    split; [done|]. split; [done|]. intros force now'.
    destruct (begin_starts force now' s' Hr) as (c' & H1 & H2 & _).
    exists c'. by rewrite H1, H2, Hi.
Qed.

Lemma reachable_reloading : reachable noExclusion reloading.
Proof.
  exists defaultConfig. eapply rtc_l; [|apply rtc_refl].
  apply (step_forceReload noExclusion (initial defaultConfig) true 0).
Defined.

Lemma reload_cycles_exclusive_witness :
  reachable noExclusion reloading
  /\ isReloading reloading = true
  /\ (List.length (inflight reloading) <= 1)%nat
  /\ (performHotReload_begin false 5 reloading).1 = skipped
  /\ isReloading (performHotReload_end 0 (thrown "Request timeout") 9 reloading)
     = false.
Proof.
  pose proof (reload_cycles_exclusive noExclusion reloading
                reachable_reloading) as (H1 & H2 & H3).
  split; [exact reachable_reloading|]. split; [reflexivity|].
  split; [exact H1|]. split.
  - destruct H2 as [H2 _]; [reflexivity|]. by rewrite H2.
  - refine (proj1 (H3 0%nat _ (thrown "Request timeout") 9 eq_refl)).
Defined.

(** ** A change of the project manifest *)

(** C8, as stated: after the handler has run on the idle service no
    cycle has started; the debounce timer is armed instead, with the
    delay of ordinary changes. *)
Lemma config_change_waits_for_debounce :
  let s := handleConfigChange (initial defaultConfig) in
  isReloading s = false /\ inflight s = [] /\ reloadHistory s = []
  /\ debounceTimer s = Some 0%nat
  /\ timers s = [mkTimer true 1000 Armed].
Proof. repeat split. Qed.

(** C8, amended: the handler empties the build cache at once and arms
    the debounce timer, with the configured delay and the request for a
    full rebuild; no other debounce timer stays armed and no cycle
    starts before it fires.  When it fires with the guard clear, the
    cycle it starts uses the full strategy, on a cache that is still
    empty. *)
Theorem handleConfigChange_debounced R s :
  reachable R s ->
  let s' := handleConfigChange s in
  buildCache s' = ∅
  /\ isReloading s' = isReloading s
  /\ inflight s' = inflight s
  /\ reloadHistory s' = reloadHistory s
  /\ changeQueue s' = changeQueue s
  /\ exists h,
       debounceTimer s' = Some h
       /\ timers s' !! h = Some (mkTimer true (debounceDelay (config s)) Armed)
       /\ (forall i t, timers s' !! i = Some t -> status t = Armed -> i = h)
       /\ (isReloading s = false ->
           forall now, exists c s'',
             debounceFired h now s' = Some (started c, s'')
             /\ forceFullRebuild c = true
             /\ strategy c = full
             /\ buildCache s'' = ∅).
Proof.
  intros Hreach s'. pose proof (reachable_Inv R s Hreach) as [_ _ _ _ Htm].
  repeat (split; [reflexivity|]).
  destruct (triggerHotReload_timer true
              (set_caches (lastSuccessfulBuild s) ∅
                 (appendLine
                    "Project configuration changed - full rebuild required" s))
              Htm) as (h & Hd & Hh & Hu).
  change (debounceTimer s' = Some h) in Hd.
  change (timers s' !! h
          = Some (mkTimer true (debounceDelay (config s)) Armed)) in Hh.
  change (forall i t, timers s' !! i = Some t -> status t = Armed -> i = h)
    in Hu.
  exists h. repeat (split; [done|]).
  intros Hr now. unfold debounceFired, fire. rewrite Hh. simpl.
  unfold performHotReload_begin. simpl.
  replace (isReloading s) with false by done.
  eexists _, _. split; [reflexivity|]. by repeat split.
Qed.

Lemma handleConfigChange_debounced_witness :
  reachable noExclusion (initial defaultConfig)
  /\ buildCache (handleConfigChange (initial defaultConfig)) = ∅
  /\ isReloading (handleConfigChange (initial defaultConfig)) = false.
Proof.
  assert (Hr : reachable noExclusion (initial defaultConfig))
    by (exists defaultConfig; apply rtc_refl).
  pose proof (handleConfigChange_debounced noExclusion
                (initial defaultConfig) Hr) as (H1 & H2 & _).
  split; [exact Hr|]. split; [exact H1 | exact H2].
Defined.

(** ** The end of a cycle *)

Lemma last_history_bound {A} (h : list A) (x : A) :
  last (if (50 <? List.length (h ++ [x]))%nat
        then tail (h ++ [x]) else h ++ [x]) = Some x.
Proof.
  destruct (Nat.ltb_spec 50 (List.length (h ++ [x]))) as [Hlt|Hge].
  - destruct h as [|y h]; simpl in *; [lia|]. apply last_snoc.
  - apply last_snoc.
Qed.

Lemma caches_showReloadResult result s :
  buildCache (showReloadResult result s) = buildCache s
  /\ lastSuccessfulBuild (showReloadResult result s) = lastSuccessfulBuild s
  /\ reloadHistory (showReloadResult result s) = reloadHistory s.
Proof.
  by destruct (core_fields _ _ (core_showReloadResult result s))
    as (_ & _ & _ & -> & -> & -> & _).
Qed.

Lemma reloadHistory_finally result s :
  reloadHistory (finally result s)
  = (if (50 <? List.length (reloadHistory s ++ [result]))%nat
     then tail (reloadHistory s ++ [result])
     else reloadHistory s ++ [result]).
Proof. reflexivity. Qed.

(** What the end of a cycle leaves, by outcome. *)
Lemma end_returned i c result now s :
  inflight s !! i = Some c ->
  let s' := performHotReload_end i (returned result) now s in
  let acc := fold_left cacheChange (changeQueue s)
                       (lastSuccessfulBuild s, buildCache s) in
  buildCache s' = acc.2 /\ lastSuccessfulBuild s' = acc.1
  /\ reloadHistory s'
     = (if (50 <? List.length (reloadHistory s ++ [result]))%nat
        then tail (reloadHistory s ++ [result])
        else reloadHistory s ++ [result]).
Proof.
  intros Hc s' acc. unfold s', performHotReload_end. rewrite Hc.
  destruct (caches_showReloadResult result
              (set_changeQueue
                 (JsMap.clear (changeQueue (updateBuildCache
                    (set_inflight (delete i (inflight s)) s))))
                 (updateBuildCache (set_inflight (delete i (inflight s)) s))))
    as (H1 & H2 & H3).
  split; [exact H1|]. split; [exact H2|].
  cbv zeta. by rewrite reloadHistory_finally, H3.
Qed.

Lemma end_thrown i c m now s :
  inflight s !! i = Some c ->
  let s' := performHotReload_end i (thrown m) now s in
  let result := mkResult false (now - startTime c) "error" (Some [m]) None in
  buildCache s' = buildCache s
  /\ lastSuccessfulBuild s' = lastSuccessfulBuild s
  /\ changeQueue s' = changeQueue s
  /\ reloadHistory s'
     = (if (50 <? List.length (reloadHistory s ++ [result]))%nat
        then tail (reloadHistory s ++ [result])
        else reloadHistory s ++ [result]).
Proof.
  intros Hc s' result. unfold s', performHotReload_end. rewrite Hc.
  repeat split.
Qed.

(** C9, as stated: a cycle whose strategy fails leaves the build cache
    without an entry for the file of its batch. *)
Lemma failed_cycle_skips_cache :
  let s := performHotReload failing false 1010 30000 edited in
  files (analyzeChanges (changeQueue edited)) = ["Sources/App.swift"]
  /\ (success <$> last (reloadHistory s)) = Some false
  /\ buildCache s !! "Sources/App.swift" = None.
Proof. vm_compute. repeat split. Qed.

(** C9, amended: when the strategy returns, every path of the batch has
    a cache entry with the content, time stamp and hash of its queued
    change; when it throws, the caches and the queue are as before.  In
    both cases the result is the last entry of the history, which holds
    at most fifty, and the guard is clear. *)
Theorem cycle_end_cache_and_history R s i c o now :
  reachable R s ->
  inflight s !! i = Some c ->
  let s' := performHotReload_end i o now s in
  match o with
  | returned result =>
      (forall path, path ∈ files (analysis c) ->
         exists ch, JsMap.get path (changeQueue s) = Some ch
                    /\ buildCache s' !! path = Some (entryOf ch)
                    /\ lastSuccessfulBuild s' !! path = Some (content ch))
      /\ last (reloadHistory s') = Some result
  | thrown m =>
      buildCache s' = buildCache s
      /\ lastSuccessfulBuild s' = lastSuccessfulBuild s
      /\ changeQueue s' = changeQueue s
      /\ last (reloadHistory s')
         = Some (mkResult false (now - startTime c) "error" (Some [m]) None)
  end
  /\ (List.length (reloadHistory s') <= 50)%nat
  /\ isReloading s' = false.
Proof.
  intros Hreach Hc s'. pose proof (reachable_Inv R s Hreach) as HI.
  pose proof (Inv_end i o now s HI) as [_ _ _ Hh' _]. fold s' in Hh'.
  destruct (end_fields i o now s c Hc) as [Hr' _]. fold s' in Hr'.
  split; [|done]. destruct HI as [Hk Hg Hb Hh Htm].
  destruct o as [result|m].
  - destruct (end_returned i c result now s Hc) as (H1 & H2 & H3).
    fold s' in H1, H2, H3. rewrite H1, H2, H3.
    split; [|apply last_history_bound].
    intros path Hpath.
    assert (Hin : path ∈ JsMap.keys (changeQueue s)).
    { apply (Hb c); [|done]. by eapply list_elem_of_lookup_2. }
    destruct (JsMap.get path (changeQueue s)) as [ch|] eqn:Hget;
      [|by apply get_None_keys in Hget].
    exists ch. split; [done|].
    destruct (cacheAll_present (changeQueue s)
                (lastSuccessfulBuild s, buildCache s) path ch Hk Hget)
      as [H4 H5].
    by rewrite H4, H5.
  - destruct (end_thrown i c m now s Hc) as (H1 & H2 & H3 & H4).
    fold s' in H1, H2, H3, H4. rewrite H4.
    repeat (split; [done|]). apply last_history_bound.
Qed.

Lemma cycle_end_cache_and_history_witness :
  reachable noExclusion reloading
  /\ inflight reloading !! 0%nat
     = Some (mkCycle true 0 (analyzeChanges []) full)
  /\ buildCache (performHotReload_end 0 (thrown "Request timeout") 9 reloading)
     = buildCache reloading
  /\ isReloading (performHotReload_end 0 (thrown "Request timeout") 9 reloading)
     = false.
Proof.
  pose proof (cycle_end_cache_and_history noExclusion reloading 0%nat
                (mkCycle true 0 (analyzeChanges []) full)
                (thrown "Request timeout") 9
                reachable_reloading eq_refl) as ((H1 & _) & _ & H2).
  split; [exact reachable_reloading|]. split; [reflexivity|].
  split; [exact H1 | exact H2].
Defined.

End ReloadProofs.

(** * The request correlator *)

Module ConnectionProofs.
Import Connection.

(** ** Promises are settled once *)

Lemma length_settle p v ps : List.length (settle p v ps) = List.length ps.
Proof.
  unfold settle. destruct (ps !! p) as [[| |]|]; by rewrite ?length_insert.
Qed.

Lemma settle_other p q v ps : p <> q -> settle q v ps !! p = ps !! p.
Proof.
  intros Hne. unfold settle. destruct (ps !! q) as [[| |]|]; try done.
  by rewrite list_lookup_insert_ne.
Qed.

Lemma settle_pending p v ps :
  ps !! p = Some Pending -> settle p v ps !! p = Some v.
Proof.
  intros Hp. unfold settle. rewrite Hp.
  apply list_lookup_insert_eq. by eapply lookup_lt_Some.
Qed.

Lemma settle_settled p q v w ps :
  ps !! p = Some v -> v <> Pending -> settle q w ps !! p = Some v.
Proof.
  intros Hp Hv. destruct (decide (p = q)) as [->|Hne].
  - unfold settle. rewrite Hp. by destruct v.
  - by rewrite settle_other.
Qed.

(** ** Disarming timers *)

Lemma disarmed_refl ts : disarmed ts ts.
Proof. split; [done|]. intros h t Ht. by exists t. Qed.

Lemma disarmed_trans ts1 ts2 ts3 :
  disarmed ts1 ts2 -> disarmed ts2 ts3 -> disarmed ts1 ts3.
Proof.
  intros [Hl1 H1] [Hl2 H2]. split; [congruence|].
  intros h t3 Ht3. destruct (H2 h t3 Ht3) as (t2 & Ht2 & Hc2 & Hd2 & Ha2).
  destruct (H1 h t2 Ht2) as (t1 & Ht1 & Hc1 & Hd1 & Ha1).
  exists t1. split; [done|]. split; [congruence|]. split; [congruence|].
  intros Ha. pose proof (Ha2 Ha) as E. subst t3. by apply Ha1.
Qed.

Lemma disarmed_insert ts h t st :
  ts !! h = Some t -> st <> Armed -> disarmed ts (<[h := disarm st t]> ts).
Proof.
  intros Hh Hst. split; [by rewrite length_insert|].
  intros i t' Hi. destruct (decide (i = h)) as [->|Hne].
  - rewrite list_lookup_insert_eq in Hi by (by eapply lookup_lt_Some).
    injection Hi as <-. exists t. split; [done|]. split; [done|].
    split; [done|]. simpl. by intros ->.
  - rewrite list_lookup_insert_ne in Hi by done. by exists t'.
Qed.

Lemma disarmed_clearTimeout h ts : disarmed ts (clearTimeout h ts).
Proof.
  unfold clearTimeout. destruct (ts !! h) as [t|] eqn:Hh;
    [|apply disarmed_refl].
  destruct (status t); try apply disarmed_refl.
  by apply disarmed_insert.
Qed.

Lemma disarmed_fire h ts cb ts' : fire h ts = Some (cb, ts') -> disarmed ts ts'.
Proof.
  intros (t & Hh & _ & _ & ->)%fire_Some. by apply disarmed_insert.
Qed.

Lemma disarmed_lookup_None ts ts' h : disarmed ts ts' -> ts !! h = None -> ts' !! h = None.
Proof.
  intros [Hl _] Hn. apply lookup_ge_None. apply lookup_ge_None in Hn. lia.
Qed.

(** ** Preservation of the invariant *)

Lemma conn_Inv_fields s s' :
  pendingRequests s' = pendingRequests s -> promises s' = promises s ->
  timers s' = timers s -> Inv s -> Inv s'.
Proof.
  intros Hp Hq Ht [H1 H2 H3]. split.
  - rewrite Hp, Ht. apply H1.
  - rewrite Hq, Ht. apply H2.
  - rewrite Ht. apply H3.
Qed.

Lemma conn_Inv_initial : Inv initial.
Proof. split; simpl; intros; simplify_eq. Qed.

(** Timers are disarmed, entries removed and promises settled, but no
    deadline that stays armed loses its entry or its promise. *)
Lemma Inv_shrink s s' :
  Inv s ->
  disarmed (timers s) (timers s') ->
  List.length (promises s') = List.length (promises s) ->
  (forall i r, pendingRequests s' !! i = Some r ->
               pendingRequests s !! i = Some r
               /\ timers s' !! timeout r = timers s !! timeout r) ->
  (forall h t i p, timers s' !! h = Some t -> status t = Armed ->
                   callback t = request_timeout i p ->
                   promises s' !! p = promises s !! p) ->
  Inv s'.
Proof.
  intros [H1 H2 H3] [Hl Hd] Hlen He Hp. split.
  - intros i r Hi. destruct (He i r Hi) as [Hi0 ->]. by apply H1.
  - intros h t' i p Ht' Hc.
    destruct (Hd h t' Ht') as (t & Ht & Hct & Hdt & Hat).
    rewrite Hct in Hc. destruct (H2 h t i p Ht Hc) as (Hdl & Hlt & Hpend).
    split; [congruence|]. split; [lia|].
    intros Ha. rewrite (Hp h t' i p Ht' Ha); [|by rewrite Hct].
    apply Hpend. by rewrite <- (Hat Ha).
  - intros h1 h2 t1' t2' i1 i2 p Ht1 Ht2 Hc1 Hc2.
    destruct (Hd h1 t1' Ht1) as (t1 & Ht1o & Hct1 & _).
    destruct (Hd h2 t2' Ht2) as (t2 & Ht2o & Hct2 & _).
    apply (H3 h1 h2 t1 t2 i1 i2 p); congruence.
Qed.

(** Two entries of the table have different timers. *)
Lemma entry_timer_inj s i j r r' :
  Inv s -> pendingRequests s !! i = Some r -> pendingRequests s !! j = Some r' ->
  timeout r = timeout r' -> i = j.
Proof.
  intros [H1 _ _] Hi Hj Heq.
  pose proof (H1 i r Hi) as Ht. pose proof (H1 j r' Hj) as Ht'.
  rewrite Heq in Ht. congruence.
Qed.

Lemma entry_pending s i r :
  Inv s -> pendingRequests s !! i = Some r ->
  promises s !! promise r = Some Pending.
Proof.
  intros [H1 H2 _] Hi.
  by destruct (H2 _ _ i (promise r) (H1 i r Hi) eq_refl) as (_ & _ & ->).
Qed.

Lemma Inv_complete i r v s :
  Inv s -> pendingRequests s !! i = Some r -> Inv (complete i r v s).
Proof.
  intros HI Hi. apply (Inv_shrink s); [done|..]; simpl.
  - apply disarmed_clearTimeout.
  - apply length_settle.
  - intros j r' Hj. apply lookup_delete_Some in Hj as [Hne Hj].
    split; [done|]. apply clearTimeout_other.
    intros Heq. apply Hne. symmetry. by apply (entry_timer_inj s j i r' r).
  - intros h t j p Ht Ha Hc.
    destruct (clearTimeout_armed _ _ _ _ Ht Ha) as [Hne Ht0].
    apply settle_other. intros ->. apply Hne.
    destruct HI as [H1 _ H3].
    apply (H3 h (timeout r) t _ j i (promise r) Ht0 (H1 i r Hi) Hc eq_refl).
Qed.

Lemma Inv_handleServerMessage m s : Inv s -> Inv (handleServerMessage m s).
Proof.
  intros HI. unfold handleServerMessage.
  destruct (matching m s) as [[i r]|] eqn:Hm.
  - assert (Hi : pendingRequests s !! i = Some r).
    { unfold matching in Hm. destruct (id m) as [j|]; [|done].
      destruct (String.eqb j ""); [done|].
      destruct (pendingRequests s !! j) as [r'|] eqn:Hj; [|done].
      by injection Hm as <- <-. }
    destruct (String.eqb (type m) "error").
    + by apply (Inv_complete i r (Rejected _) s).
    + by apply (Inv_complete i r (Fulfilled _) s).
  - destruct (messageHandlers !! type m); by apply (conn_Inv_fields s).
Qed.

(** A request is registered: a fresh promise, a fresh armed timer and
    the entry for its id. *)
Lemma Inv_register i s s' :
  Inv s ->
  promises s' = promises s ++ [Pending] ->
  timers s'
  = timers s
    ++ [mkTimer (request_timeout i (List.length (promises s))) 30000 Armed] ->
  pendingRequests s'
  = <[i := mkPending (List.length (promises s)) (List.length (timers s))]>
      (pendingRequests s) ->
  Inv s'.
Proof.
  intros [H1 H2 H3] Hp Ht Hq. split.
  - intros j r. rewrite Hq, Ht. intros [[<- <-]|[Hne Hj]]%lookup_insert_Some.
    + simpl. by rewrite list_lookup_middle.
    + apply lookup_app_l_Some. by apply H1.
  - intros h t j p. rewrite Ht, Hp, length_app. simpl.
    intros [Hold|[Hge Hnew]]%lookup_app_Some Hc.
    + destruct (H2 h t j p Hold Hc) as (Hd & Hlt & Ha).
      split; [done|]. split; [lia|]. intros Hs.
      apply lookup_app_l_Some. by apply Ha.
    + apply list_lookup_singleton_Some in Hnew as [_ <-].
      simpl in *. injection Hc as <- <-.
      split; [done|]. split; [lia|]. intros _. by rewrite list_lookup_middle.
  - intros h1 h2 t1 t2 i1 i2 p. rewrite Ht.
    intros [Ho1|[Hg1 Hn1]]%lookup_app_Some [Ho2|[Hg2 Hn2]]%lookup_app_Some
           Hc1 Hc2.
    + by apply (H3 h1 h2 t1 t2 i1 i2 p).
    + apply list_lookup_singleton_Some in Hn2 as [_ <-].
      simpl in Hc2. injection Hc2 as <- <-.
      destruct (H2 h1 t1 i1 _ Ho1 Hc1) as (_ & Hlt & _). lia.
    + apply list_lookup_singleton_Some in Hn1 as [_ <-].
      simpl in Hc1. injection Hc1 as <- <-.
      destruct (H2 h2 t2 i2 _ Ho2 Hc2) as (_ & Hlt & _). lia.
    + apply list_lookup_singleton_Some in Hn1 as [? _].
      apply list_lookup_singleton_Some in Hn2 as [? _]. lia.
Qed.

(** A promise is created and settled at once. *)
Lemma Inv_fresh_promise v s s' :
  Inv s ->
  pendingRequests s' = pendingRequests s -> timers s' = timers s ->
  promises s'
  = settle (List.length (promises s)) v (promises s ++ [Pending]) ->
  Inv s'.
Proof.
  intros [H1 H2 H3] Hq Ht Hp. split.
  - rewrite Hq, Ht. apply H1.
  - intros h t i p. rewrite Ht, Hp, length_settle, length_app. simpl.
    intros Hh Hc. destruct (H2 h t i p Hh Hc) as (Hd & Hlt & Ha).
    split; [done|]. split; [lia|]. intros Hs.
    rewrite settle_other by lia. apply lookup_app_l_Some. by apply Ha.
  - rewrite Ht. apply H3.
Qed.

(** The three ways [sendMessage] ends. *)
Lemma sendMessage_closed m i e s :
  websocket s <> Some OPEN ->
  sendMessage m i e s
  = (List.length (promises s),
     set_promises
       (reject (List.length (promises s)) NotConnected
               (promises s ++ [Pending])) s).
Proof.
  intros Hw. unfold sendMessage. simpl.
  destruct (websocket s) as [[]|]; try done.
Qed.

Lemma sendMessage_open m i s :
  websocket s = Some OPEN ->
  sendMessage m i None s
  = (List.length (promises s),
     send (mkMessage (type m) (data m) (Some i)) (registered i s)).
Proof. intros Hw. unfold sendMessage. simpl. by rewrite Hw. Qed.

Lemma sendMessage_throws m i e s :
  websocket s = Some OPEN ->
  sendMessage m i (Some e) s
  = (List.length (promises s),
     complete i (mkPending (List.length (promises s)) (List.length (timers s)))
              (Rejected e) (registered i s)).
Proof. intros Hw. unfold sendMessage. simpl. by rewrite Hw. Qed.

Lemma Inv_registered i s : Inv s -> Inv (registered i s).
Proof. intros HI. by apply (Inv_register i s). Qed.

Lemma Inv_sendMessage m i e s : Inv s -> Inv (sendMessage m i e s).2.
Proof.
  intros HI. destruct (decide (websocket s = Some OPEN)) as [Hw|Hw].
  - destruct e as [e|].
    + rewrite sendMessage_throws by done. simpl.
      apply Inv_complete; [by apply Inv_registered|].
      simpl. apply lookup_insert_eq.
    + rewrite sendMessage_open by done. simpl.
      apply (conn_Inv_fields (registered i s)); [done..|].
      by apply Inv_registered.
  - rewrite sendMessage_closed by done. simpl.
    by apply (Inv_fresh_promise (Rejected NotConnected) s).
Qed.

Lemma Inv_timerFired h s : Inv s -> Inv (timerFired h s).
Proof.
  intros HI. unfold timerFired.
  destruct (fire h (timers s)) as [[[i p|] ts]|] eqn:Hf; [| |done].
  - pose proof Hf as (t & Hh & _ & Hc & _)%fire_Some.
    apply (Inv_shrink s); [done|..]; simpl.
    + by eapply disarmed_fire.
    + apply length_settle.
    + intros j r Hj. apply lookup_delete_Some in Hj as [Hne Hj].
      split; [done|].
      apply fire_Some in Hf as (t0 & Hh0 & _ & _ & ->).
      apply list_lookup_insert_ne. intros Heq. apply Hne.
      destruct HI as [H1 _ _]. pose proof (H1 j r Hj) as Hr.
      rewrite <- Heq in Hr. rewrite Hh in Hr. injection Hr as ->.
      simpl in Hc. by injection Hc.
    + intros h' t' j p' Ht' Ha' Hc'.
      destruct (fire_armed _ _ _ _ _ _ Hf Ht' Ha') as [Hne Ht0].
      apply settle_other. intros ->. apply Hne.
      destruct HI as [_ _ H3]. by apply (H3 h' h t' t j i p).
  - pose proof Hf as (t & Hh & _ & Hc & _)%fire_Some.
    apply (Inv_shrink s); [done|..]; simpl.
    + by eapply disarmed_fire.
    + done.
    + intros j r Hj. split; [done|].
      apply fire_Some in Hf as (t0 & Hh0 & _ & _ & ->).
      apply list_lookup_insert_ne. intros Heq.
      destruct HI as [H1 _ _]. pose proof (H1 j r Hj) as Hr.
      rewrite <- Heq in Hr. rewrite Hh in Hr. injection Hr as ->. done.
    + done.
Qed.

(** *** The loop of [handleDisconnection] *)

Lemma fold_pair {A B C} (f : A -> C -> A) (g : B -> C -> B) l a b :
  fold_left (fun (acc : A * B) x => (f acc.1 x, g acc.2 x)) l (a, b)
  = (fold_left f l a, fold_left g l b).
Proof. revert a b. induction l as [|x l IH]; intros a b; simpl; [done|]. apply IH. Qed.

Lemma handleDisconnection_eq s :
  handleDisconnection s
  = set_pendingRequests ∅
      (set_promises (rejectAll (map_to_list (pendingRequests s)) (promises s))
         (set_timers (clearAll (map_to_list (pendingRequests s)) (timers s))
            (set_fileWatcher false
               (effect (setContext_connected false)
                       (set_connected false s))))).
Proof.
  unfold handleDisconnection. simpl.
  rewrite (fold_pair (fun ts kv => clearTimeout (timeout kv.2) ts)
                     (fun ps kv => reject (promise kv.2) ConnectionClosed ps)).
  reflexivity.
Qed.

Lemma disarmed_clearAll l ts : disarmed ts (clearAll l ts).
Proof.
  revert ts. induction l as [|kv l IH]; intros ts; simpl;
    [apply disarmed_refl|].
  eapply disarmed_trans; [apply disarmed_clearTimeout | apply IH].
Qed.

Lemma clearAll_not_armed l ts kv t :
  kv ∈ l -> clearAll l ts !! timeout kv.2 = Some t -> status t <> Armed.
Proof.
  revert ts. induction l as [|kv0 l IH]; intros ts Hin Ht Ha.
  - by apply elem_of_nil in Hin.
  - apply elem_of_cons in Hin as [->|Hin]; [|by apply (IH _ Hin Ht)].
    simpl in Ht.
    destruct (disarmed_clearAll l (clearTimeout (timeout kv0.2) ts))
      as [_ Hd].
    destruct (Hd _ _ Ht) as (t0 & Ht0 & _ & _ & Heq).
    rewrite <- (Heq Ha) in Ht0.
    by apply (clearTimeout_not_armed _ _ _ Ht0).
Qed.

Lemma length_rejectAll l ps : List.length (rejectAll l ps) = List.length ps.
Proof.
  revert ps. induction l as [|kv l IH]; intros ps; simpl; [done|].
  unfold rejectAll in IH. rewrite IH. apply length_settle.
Qed.

Lemma rejectAll_other l ps p :
  (forall kv, kv ∈ l -> promise kv.2 <> p) -> rejectAll l ps !! p = ps !! p.
Proof.
  revert ps. induction l as [|kv l IH]; intros ps Hne; simpl; [done|].
  unfold rejectAll in IH. rewrite IH.
  - apply settle_other. intros Heq. apply (Hne kv); [by left|done].
  - intros kv' Hin. apply Hne. by right.
Qed.

Lemma rejectAll_settled l ps p v :
  ps !! p = Some v -> v <> Pending -> rejectAll l ps !! p = Some v.
Proof.
  revert ps. induction l as [|kv l IH]; intros ps Hp Hv; simpl; [done|].
  apply IH; [|done]. by apply settle_settled.
Qed.

Lemma rejectAll_pending l ps kv :
  kv ∈ l -> ps !! promise kv.2 = Some Pending ->
  rejectAll l ps !! promise kv.2 = Some (Rejected ConnectionClosed).
Proof.
  revert ps. induction l as [|kv0 l IH]; intros ps Hin Hp.
  - by apply elem_of_nil in Hin.
  - simpl. destruct (decide (promise kv0.2 = promise kv.2)) as [Heq|Hne].
    + apply rejectAll_settled; [|done]. rewrite Heq. by apply settle_pending.
    + apply elem_of_cons in Hin as [->|Hin]; [done|].
      apply (IH _ Hin). unfold reject. by rewrite settle_other.
Qed.

Lemma Inv_handleDisconnection s : Inv s -> Inv (handleDisconnection s).
Proof.
  intros HI. rewrite handleDisconnection_eq.
  apply (Inv_shrink s); [done|..]; simpl.
  - apply disarmed_clearAll.
  - apply length_rejectAll.
  - intros i r Hi. by rewrite lookup_empty in Hi.
  - intros h t i p Ht Ha Hc. apply rejectAll_other.
    intros [j r] Hin Hp. pose proof Hin as Hj%elem_of_map_to_list.
    simpl in Hp.
    destruct (disarmed_clearAll (map_to_list (pendingRequests s)) (timers s))
      as [_ Hd].
    destruct (Hd _ _ Ht) as (t0 & Ht0 & Hc0 & _ & Heq).
    destruct HI as [H1 _ H3].
    assert (h = timeout r) as ->.
    { apply (H3 h (timeout r) t0 _ i j p Ht0 (H1 j r Hj)); [congruence|].
      simpl. by rewrite Hp. }
    by apply (clearAll_not_armed (map_to_list (pendingRequests s)) (timers s)
                (j, r) t Hin Ht).
Qed.

Lemma Inv_handleConnectionError s : Inv s -> Inv (handleConnectionError s).
Proof.
  intros [H1 H2 H3]. unfold handleConnectionError. simpl.
  destruct (reconnectAttempts s <? maxReconnectAttempts);
    [|by apply (conn_Inv_fields s)].
  split; simpl.
  - intros i r Hi. apply lookup_app_l_Some. by apply H1.
  - intros h t i p [Hold|[_ Hnew]]%lookup_app_Some Hc.
    + by apply (H2 h t i p).
    + apply list_lookup_singleton_Some in Hnew as [_ <-]. done.
  - intros h1 h2 t1 t2 i1 i2 p
           [Ho1|[_ Hn1]]%lookup_app_Some [Ho2|[_ Hn2]]%lookup_app_Some Hc1 Hc2.
    + by apply (H3 h1 h2 t1 t2 i1 i2 p).
    + apply list_lookup_singleton_Some in Hn2 as [_ <-]. done.
    + apply list_lookup_singleton_Some in Hn1 as [_ <-]. done.
    + apply list_lookup_singleton_Some in Hn1 as [_ <-]. done.
Qed.

Lemma conn_Inv_step s s' : step s s' -> Inv s -> Inv s'.
Proof.
  intros Hstep HI. destruct Hstep.
  - by apply Inv_sendMessage.
  - by apply Inv_handleServerMessage.
  - by apply Inv_timerFired.
  - by apply (conn_Inv_fields s).
  - unfold onOpen. apply Inv_sendMessage.
    destruct (websocket s); by apply (conn_Inv_fields s).
  - unfold onClose. apply Inv_handleDisconnection.
    destruct (websocket s); by apply (conn_Inv_fields s).
  - by apply (conn_Inv_fields s).
  - by apply (conn_Inv_fields s).
  - by apply Inv_handleDisconnection.
  - by apply Inv_handleConnectionError.
  - by apply (conn_Inv_fields s).
Qed.

Lemma conn_reachable_Inv s : reachable s -> Inv s.
Proof.
  intros Hrtc.
  apply (rtc_ind_r (R := step) (fun s => Inv s) initial); [ | | exact Hrtc].
  - apply conn_Inv_initial.
  - intros s1 s2 _ Hstep IH. by apply (conn_Inv_step s1).
Qed.

Lemma reachable_opened : reachable opened.
Proof.
  eapply rtc_l; [apply (step_connectWebSocket initial)|].
  eapply rtc_l; [|apply rtc_refl].
  apply (step_open (connectWebSocket initial) "dev" "k3x9q2m1z" None).
Defined.

(** ** Sending while the socket is not open *)

(** C5: a send on a socket that is absent or not open rejects its
    promise with the not-connected error before it returns, and leaves
    the pending table, the timers and the wire as they were. *)
Theorem sendMessage_not_connected m i e s :
  websocket s <> Some OPEN ->
  let r := sendMessage m i e s in
  promises r.2 !! r.1 = Some (Rejected NotConnected)
  /\ promises r.2 = promises s ++ [Rejected NotConnected]
  /\ pendingRequests r.2 = pendingRequests s
  /\ timers r.2 = timers s
  /\ sent r.2 = sent s.
Proof.
  intros Hw r. unfold r. rewrite sendMessage_closed by done. simpl.
  assert (Hp : reject (List.length (promises s)) NotConnected
                      (promises s ++ [Pending])
               = promises s ++ [Rejected NotConnected]).
  { unfold reject, settle. rewrite list_lookup_middle by done.
    rewrite insert_app_r_alt by done. by rewrite Nat.sub_diag. }
  rewrite Hp. split; [by rewrite list_lookup_middle|done].
Qed.

Lemma sendMessage_not_connected_witness :
  websocket initial <> Some OPEN
  /\ promises (sendMessage build "k3x9q2m1z" None initial).2
     = [Rejected NotConnected]
  /\ pendingRequests (sendMessage build "k3x9q2m1z" None initial).2 = ∅.
Proof.
  assert (Hw : websocket initial <> Some OPEN) by discriminate.
  pose proof (sendMessage_not_connected build "k3x9q2m1z" None initial Hw)
    as (_ & H1 & H2 & _).
  split; [exact Hw|]. split; [exact H1 | exact H2].
Defined.

(** ** Correlation ids *)

(** C3, as stated: the random source returns the id of the pending
    authentication again; the send takes it, and the entry of the
    first request, which is still waiting, is replaced. *)
Lemma correlation_id_reused :
  let r := sendMessage build "k3x9q2m1z" None opened in
  pendingRequests opened !! "k3x9q2m1z" = Some (mkPending 0 0)
  /\ promises r.2 !! 0%nat = Some Pending
  /\ pendingRequests r.2 !! "k3x9q2m1z" = Some (mkPending 1 1)
  /\ id <$> sent r.2 = [Some "k3x9q2m1z"; Some "k3x9q2m1z"].
Proof. vm_compute. repeat split. Qed.

Lemma entry_promise_inj s i j r r' :
  Inv s -> pendingRequests s !! i = Some r -> pendingRequests s !! j = Some r' ->
  promise r = promise r' -> i = j.
Proof.
  intros HI Hi Hj Heq. apply (entry_timer_inj s i j r r' HI Hi Hj).
  destruct HI as [H1 _ H3].
  apply (H3 _ _ _ _ i j (promise r) (H1 i r Hi) (H1 j r' Hj)); [done|].
  simpl. by rewrite Heq.
Qed.

(** C3, amended: the id is the one the random source returns, without
    a look at the pending table.  When that id is not pending, the send
    adds one entry under it, for a new request, and leaves every other
    entry alone; the table has one entry per id, and no request has two
    entries. *)
Theorem sendMessage_fresh_id m i s :
  reachable s ->
  websocket s = Some OPEN ->
  pendingRequests s !! i = None ->
  let r := sendMessage m i None s in
  pendingRequests r.2
  = <[i := mkPending r.1 (List.length (timers s))]> (pendingRequests s)
  /\ (forall j, j <> i -> pendingRequests r.2 !! j = pendingRequests s !! j)
  /\ (forall j q, pendingRequests s !! j = Some q -> promise q <> r.1)
  /\ last (sent r.2) = Some (mkMessage (type m) (data m) (Some i))
  /\ size (pendingRequests r.2) = S (size (pendingRequests s))
  /\ NoDup (map_to_list (pendingRequests r.2)).*1
  /\ (forall j1 j2 q1 q2,
        pendingRequests r.2 !! j1 = Some q1 ->
        pendingRequests r.2 !! j2 = Some q2 ->
        promise q1 = promise q2 -> j1 = j2).
Proof.
  intros Hreach Hw Hi r. pose proof (conn_reachable_Inv s Hreach) as HI.
  pose proof (Inv_sendMessage m i None s HI) as HI'. fold r in HI'.
  revert HI'. unfold r. rewrite sendMessage_open by done. simpl. intros HI'.
  split; [done|]. split; [by intros j Hne; rewrite lookup_insert_ne|].
  split.
  { intros j q Hj Hp. pose proof (entry_pending s j q HI Hj) as Hq.
    apply lookup_lt_Some in Hq. lia. }
  split; [apply last_snoc|].
  split; [by apply map_size_insert_None|].
  split; [apply NoDup_fst_map_to_list|].
  intros j1 j2 q1 q2 H1 H2. by apply (entry_promise_inj _ j1 j2 q1 q2 HI').
Qed.

Lemma sendMessage_fresh_id_witness :
  reachable opened
  /\ websocket opened = Some OPEN
  /\ pendingRequests opened !! "z9y8x7w6v" = None
  /\ size (pendingRequests (sendMessage build "z9y8x7w6v" None opened).2)
     = S (size (pendingRequests opened)).
Proof.
  pose proof (sendMessage_fresh_id build "z9y8x7w6v" opened
                reachable_opened eq_refl eq_refl) as (_ & _ & _ & _ & H & _).
  split; [exact reachable_opened|]. split; [reflexivity|].
  split; [reflexivity | exact H].
Defined.

(** ** Deadlines *)

Lemma handleServerMessage_unmatched m s :
  matching m s = None ->
  handleServerMessage m s
  = effect (match messageHandlers !! type m with
            | Some h => handled h (data m)
            | None => unhandled (type m)
            end) s.
Proof.
  intros Hm. unfold handleServerMessage. rewrite Hm.
  by destruct (messageHandlers !! type m).
Qed.

(** C6: every pending request owns an armed timer of thirty seconds.
    As long as such a timer is armed its request is not settled; when it
    fires, the request is rejected with the timeout error and its id
    leaves the pending table; a message that then arrives with that id
    settles nothing and touches neither the table nor the timers: it
    goes to the handler of its type, or is reported as unhandled. *)
Theorem request_times_out s h t i p :
  reachable s ->
  timers s !! h = Some t -> status t = Armed ->
  callback t = request_timeout i p ->
  (forall j r, pendingRequests s !! j = Some r ->
     timers s !! timeout r
     = Some (mkTimer (request_timeout j (promise r)) 30000 Armed))
  /\ delay t = 30000
  /\ promises s !! p = Some Pending
  /\ let s' := timerFired h s in
     promises s' !! p = Some (Rejected TimeoutError)
     /\ pendingRequests s' !! i = None
     /\ forall m, id m = Some i ->
          let s'' := handleServerMessage m s' in
          promises s'' = promises s'
          /\ pendingRequests s'' = pendingRequests s'
          /\ timers s'' = timers s'
          /\ effects s''
             = effects s'
               ++ [match messageHandlers !! type m with
                   | Some hd => handled hd (data m)
                   | None => unhandled (type m)
                   end].
Proof.
  intros Hreach Ht Ha Hc. pose proof (conn_reachable_Inv s Hreach) as [H1 H2 H3].
  destruct (H2 h t i p Ht Hc) as (Hd & _ & Hp). specialize (Hp Ha).
  split; [exact H1|]. split; [done|]. split; [done|].
  assert (Hf : fire h (timers s)
               = Some (request_timeout i p, <[h := disarm Fired t]> (timers s))).
  { unfold fire. by rewrite Ht, Ha, Hc. }
  unfold timerFired. rewrite Hf. simpl.
  split; [by apply settle_pending|]. split; [apply lookup_delete_eq|].
  intros m Hm. rewrite handleServerMessage_unmatched; [done|].
  unfold matching. rewrite Hm. simpl.
  destruct (String.eqb i ""); [done|]. by rewrite lookup_delete_eq.
Qed.

Lemma request_times_out_witness :
  reachable opened
  /\ timers opened !! 0%nat
     = Some (mkTimer (request_timeout "k3x9q2m1z" 0) 30000 Armed)
  /\ promises (timerFired 0 opened) !! 0%nat = Some (Rejected TimeoutError)
  /\ pendingRequests (timerFired 0 opened) !! "k3x9q2m1z" = None.
Proof.
  pose proof (request_times_out opened 0
                (mkTimer (request_timeout "k3x9q2m1z" 0) 30000 Armed)
                "k3x9q2m1z" 0 reachable_opened eq_refl eq_refl eq_refl)
    as (_ & _ & _ & H1 & H2 & _).
  split; [exact reachable_opened|]. split; [reflexivity|].
  split; [exact H1 | exact H2].
Defined.

(** ** Loss of the connection *)

(** C7: when the connection is lost, every request of the pending
    table, which was waiting, is rejected with the connection-closed
    error and its timer is disarmed; the table is left empty.  The same
    holds when the socket reports its closing. *)
Theorem disconnection_rejects_all s :
  reachable s ->
  let s' := handleDisconnection s in
  pendingRequests s' = ∅
  /\ pendingRequests (onClose s) = ∅
  /\ connected s' = false
  /\ forall i r, pendingRequests s !! i = Some r ->
       promises s !! promise r = Some Pending
       /\ promises s' !! promise r = Some (Rejected ConnectionClosed)
       /\ promises (onClose s) !! promise r = Some (Rejected ConnectionClosed)
       /\ forall t, timers s' !! timeout r = Some t -> status t <> Armed.
Proof.
  intros Hreach s'. pose proof (conn_reachable_Inv s Hreach) as HI.
  assert (Hclose : forall w,
    pendingRequests (handleDisconnection (set_websocket w s)) = ∅
    /\ forall i r, pendingRequests s !! i = Some r ->
         promises (handleDisconnection (set_websocket w s)) !! promise r
         = Some (Rejected ConnectionClosed)
         /\ forall t, timers (handleDisconnection (set_websocket w s))
                        !! timeout r = Some t -> status t <> Armed).
  { intros w. rewrite handleDisconnection_eq. simpl. split; [done|].
    intros i r Hi. pose proof (entry_pending s i r HI Hi) as Hp.
    apply elem_of_map_to_list in Hi. split.
    - by apply (rejectAll_pending _ _ (i, r)).
    - intros t. by apply (clearAll_not_armed _ _ (i, r)). }
  assert (Hs : handleDisconnection (set_websocket (websocket s) s) = s').
  { unfold s'. by destruct s. }
  assert (Ho : exists w, onClose s = handleDisconnection (set_websocket w s)).
  { unfold onClose. destruct (websocket s) eqn:Hw.
    - by exists (Some CLOSED).
    - exists None. by destruct s; simpl in *; subst. }
  destruct Ho as [w Ho].
  destruct (Hclose (websocket s)) as [He Hr]. rewrite Hs in He, Hr.
  destruct (Hclose w) as [He' Hr']. rewrite <- Ho in He', Hr'.
  split; [done|]. split; [done|].
  split; [by unfold s'; rewrite handleDisconnection_eq|].
  intros i r Hi. split; [by apply (entry_pending s i r)|].
  destruct (Hr i r Hi) as [? ?]. destruct (Hr' i r Hi) as [? _]. done.
Qed.

Lemma disconnection_rejects_all_witness :
  reachable opened
  /\ pendingRequests opened !! "k3x9q2m1z" = Some (mkPending 0 0)
  /\ pendingRequests (handleDisconnection opened) = ∅
  /\ promises (handleDisconnection opened) !! 0%nat
     = Some (Rejected ConnectionClosed).
Proof.
  pose proof (disconnection_rejects_all opened reachable_opened)
    as (H1 & _ & _ & H2).
  split; [exact reachable_opened|]. split; [reflexivity|].
  split; [exact H1|].
  exact (proj1 (proj2 (H2 "k3x9q2m1z" (mkPending 0 0) eq_refl))).
Defined.

End ConnectionProofs.

Module ReloadExtras.
Import HotReload.
Import ReloadProofs.

(** ** File events and the debounce timer *)

Lemma keys_set_fresh {V} (m : list (string * V)) k v :
  k ∉ JsMap.keys m -> JsMap.keys (JsMap.set k v m) = JsMap.keys m ++ [k].
Proof.
  unfold JsMap.keys. induction m as [|[k0 v0] m IH]; simpl; [done|].
  rewrite not_elem_of_cons. intros [Hne Hnotin].
  rewrite decide_False by done. rewrite fmap_cons. simpl. f_equal.
  by apply IH.
Qed.

Lemma config_handleFileChange R connected path ev fc now s :
  config (handleFileChange R connected path ev fc now s) = config s.
Proof.
  unfold handleFileChange.
  destruct (negb (enabled (config s)) || negb connected); [done|].
  destruct (shouldExcludeFile R (config s) path); [done|].
  by destruct (match ev with ev_delete => Some "" | _ => fc end).
Qed.

(** X1: [handleFileChange] either passes all its guards (service
    enabled, server connected, path not excluded, file read unless it
    was deleted), and then leaves the record of the event under the
    path and an armed, unforced debounce timer with the configured
    delay; or it leaves the service exactly as it was. *)
Theorem handleFileChange_guards R connected path ev fc now s :
  let s' := handleFileChange R connected path ev fc now s in
  if enabled (config s) && connected
     && negb (shouldExcludeFile R (config s) path)
     && match ev with ev_delete => true | _ => bool_decide (is_Some fc) end
  then JsMap.get path (changeQueue s')
       = Some (mkChange now (captured ev (default "" fc)))
       /\ exists h, debounceTimer s' = Some h
                    /\ timers s' !! h
                       = Some (mkTimer false (debounceDelay (config s)) Armed)
  else s' = s.
Proof.
  unfold handleFileChange.
  destruct (enabled (config s)); simpl; [|done].
  destruct connected; simpl; [|done].
  destruct (shouldExcludeFile R (config s) path); simpl; [done|].
  assert (Hrec : forall text,
    JsMap.get path
      (changeQueue
         (triggerHotReload false
            (set_changeQueue
               (JsMap.set path (mkChange now text) (changeQueue s)) s)))
    = Some (mkChange now text)
    /\ exists h,
         debounceTimer
           (triggerHotReload false
              (set_changeQueue
                 (JsMap.set path (mkChange now text) (changeQueue s)) s))
         = Some h
         /\ timers
              (triggerHotReload false
                 (set_changeQueue
                    (JsMap.set path (mkChange now text) (changeQueue s)) s))
              !! h
            = Some (mkTimer false (debounceDelay (config s)) Armed)).
  { intros text. split; [apply get_set_eq|].
    eexists. split; [reflexivity|]. simpl. by rewrite list_lookup_middle. }
  destruct ev; simpl; try (destruct fc as [text|]; simpl; [|done]);
    apply Hrec.
Qed.

Lemma get_handleFileChange_other R connected path ev fc now s k :
  k <> path ->
  JsMap.get k (changeQueue (handleFileChange R connected path ev fc now s))
  = JsMap.get k (changeQueue s).
Proof.
  intros Hne. unfold handleFileChange.
  destruct (negb (enabled (config s)) || negb connected); [done|].
  destruct (shouldExcludeFile R (config s) path); [done|].
  destruct (match ev with ev_delete => Some "" | _ => fc end); [|done].
  simpl. by apply get_set_ne.
Qed.

Lemma burst_cons R e es s :
  handleFileChanges R (e :: es) s
  = handleFileChanges R es
      (handleFileChange R true (e_path e) (e_event e) (Some (e_text e))
                        (e_time e) s).
Proof. reflexivity. Qed.

Lemma burst_Inv R edits s : Inv s -> Inv (handleFileChanges R edits s).
Proof.
  revert s. induction edits as [|e es IH]; intros s HI; [done|].
  rewrite burst_cons. by apply IH, Inv_handleFileChange.
Qed.

Lemma burst_config R edits s :
  config (handleFileChanges R edits s) = config s.
Proof.
  revert s. induction edits as [|e es IH]; intros s; [done|].
  by rewrite burst_cons, IH, config_handleFileChange.
Qed.

Lemma burst_get_other R edits s k :
  k ∉ e_path <$> edits ->
  JsMap.get k (changeQueue (handleFileChanges R edits s))
  = JsMap.get k (changeQueue s).
Proof.
  revert s. induction edits as [|e es IH]; intros s; [done|].
  rewrite fmap_cons, not_elem_of_cons. intros [Hne Hnotin].
  rewrite burst_cons, IH by done.
  by apply get_handleFileChange_other.
Qed.

Lemma guard_handleFileChange R connected path ev fc now s :
  isReloading (handleFileChange R connected path ev fc now s) = isReloading s
  /\ inflight (handleFileChange R connected path ev fc now s) = inflight s.
Proof.
  unfold handleFileChange.
  destruct (negb (enabled (config s)) || negb connected); [done|].
  destruct (shouldExcludeFile R (config s) path); [done|].
  by destruct (match ev with ev_delete => Some "" | _ => fc end).
Qed.

Lemma burst_guard R edits s :
  isReloading (handleFileChanges R edits s) = isReloading s
  /\ inflight (handleFileChanges R edits s) = inflight s.
Proof.
  revert s. induction edits as [|e es IH]; intros s; [done|].
  rewrite burst_cons.
  destruct (IH (handleFileChange R true (e_path e) (e_event e)
                  (Some (e_text e)) (e_time e) s)) as [-> ->].
  apply guard_handleFileChange.
Qed.

Lemma burst_keys R edits s :
  enabled (config s) = true ->
  Forall (fun e => shouldExcludeFile R (config s) (e_path e) = false) edits ->
  NoDup (e_path <$> edits) ->
  (forall e, e ∈ edits -> e_path e ∉ JsMap.keys (changeQueue s)) ->
  JsMap.keys (changeQueue (handleFileChanges R edits s))
  = JsMap.keys (changeQueue s) ++ (e_path <$> edits).
Proof.
  revert s. induction edits as [|e es IH]; intros s He Hx Hnd Hfresh.
  - by rewrite app_nil_r.
  - apply Forall_cons in Hx as [Hxe Hxs].
    rewrite fmap_cons in Hnd. apply NoDup_cons in Hnd as [Hnotin Hnd].
    assert (Hk : JsMap.keys
              (changeQueue
                 (handleFileChange R true (e_path e) (e_event e)
                    (Some (e_text e)) (e_time e) s))
            = JsMap.keys (changeQueue s) ++ [e_path e]).
    { rewrite handleFileChange_records by done.
      apply keys_set_fresh, Hfresh. by left. }
    rewrite burst_cons, IH.
    + by rewrite Hk, fmap_cons, <- app_assoc.
    + by rewrite config_handleFileChange.
    + by rewrite config_handleFileChange.
    + done.
    + intros e' He'. rewrite Hk, elem_of_app, list_elem_of_singleton.
      intros [Hin|Heq].
      * apply (Hfresh e'); [by right|done].
      * apply Hnotin. rewrite <- Heq. by apply list_elem_of_fmap_2.
Qed.

(** The last event of a burst decides the timer. *)
Lemma burst_timer R edits e s :
  Inv s -> enabled (config s) = true ->
  shouldExcludeFile R (config s) (e_path e) = false ->
  exists h,
    debounceTimer (handleFileChanges R (edits ++ [e]) s) = Some h
    /\ timers (handleFileChanges R (edits ++ [e]) s) !! h
       = Some (mkTimer false (debounceDelay (config s)) Armed)
    /\ forall i t, timers (handleFileChanges R (edits ++ [e]) s) !! i = Some t ->
                   status t = Armed -> i = h.
Proof.
  intros HI He Hx. unfold handleFileChanges. rewrite fold_left_app. simpl.
  fold (handleFileChanges R edits s).
  pose proof (burst_Inv R edits s HI) as [_ _ _ _ Htm].
  pose proof (burst_config R edits s) as Hc.
  rewrite handleFileChange_records by (by rewrite Hc).
  destruct (triggerHotReload_timer false
    (set_changeQueue
       (JsMap.set (e_path e) (mkChange (e_time e) (captured (e_event e) (e_text e)))
          (changeQueue (handleFileChanges R edits s)))
       (handleFileChanges R edits s)) Htm) as (h & Hd & Hh & Hu).
  exists h. split; [done|]. split; [|done].
  rewrite Hh. simpl. by rewrite Hc.
Qed.

(** X2: a burst of edits of distinct files that were not queued: the
    queue gains the files in the order of the events, each with the
    record of its event, and when the burst is over exactly one
    debounce timer is armed, unforced and with the configured delay;
    the guard and the running cycle, if any, are not touched. *)
Theorem burst_is_one_batch R edits s :
  reachable R s ->
  enabled (config s) = true ->
  Forall (fun e => shouldExcludeFile R (config s) (e_path e) = false) edits ->
  NoDup (e_path <$> edits) ->
  (forall e, e ∈ edits -> e_path e ∉ JsMap.keys (changeQueue s)) ->
  let s' := handleFileChanges R edits s in
  JsMap.keys (changeQueue s') = JsMap.keys (changeQueue s) ++ (e_path <$> edits)
  /\ (forall e, e ∈ edits ->
        JsMap.get (e_path e) (changeQueue s')
        = Some (mkChange (e_time e) (captured (e_event e) (e_text e))))
  /\ (edits <> [] ->
      exists h,
        debounceTimer s' = Some h
        /\ timers s' !! h
           = Some (mkTimer false (debounceDelay (config s)) Armed)
        /\ forall i t, timers s' !! i = Some t -> status t = Armed -> i = h)
  /\ isReloading s' = isReloading s
  /\ inflight s' = inflight s.
Proof.
  intros Hreach He Hx Hnd Hfresh s'.
  pose proof (reachable_Inv R s Hreach) as HI.
  split; [by apply burst_keys|]. split; [|split; [|apply burst_guard]].
  - clear Hfresh. unfold s'. clear s'. revert s He Hx HI Hreach.
    induction edits as [|e es IH]; intros s He Hx HI Hreach e' He'.
    + by apply elem_of_nil in He'.
    + apply Forall_cons in Hx as [Hxe Hxs].
      rewrite fmap_cons in Hnd. apply NoDup_cons in Hnd as [Hnotin Hnd].
      rewrite burst_cons.
      apply elem_of_cons in He' as [->|He'].
      * rewrite burst_get_other by done.
        rewrite handleFileChange_records by done. apply get_set_eq.
      * apply (IH Hnd); [by rewrite config_handleFileChange
                        |by rewrite config_handleFileChange
                        |by apply Inv_handleFileChange| |done].
        destruct Hreach as [cfg Hrtc]. exists cfg.
        eapply rtc_r; [exact Hrtc|]. apply step_fileChange.
  - intros Hne. destruct (exists_last Hne) as (es & e & ->).
    apply Forall_app in Hx as [_ [Hxe _]%Forall_cons].
    by apply burst_timer.
Qed.

Lemma reachable_initial cfg : reachable noExclusion (initial cfg).
Proof. exists cfg. apply rtc_refl. Defined.

Lemma burst_is_one_batch_witness :
  reachable noExclusion (initial defaultConfig)
  /\ NoDup (e_path <$> twoEdits)
  /\ JsMap.keys
       (changeQueue
          (handleFileChanges noExclusion twoEdits (initial defaultConfig)))
     = ["Sources/A.swift"; "Sources/B.swift"].
Proof.
  assert (Hnd : NoDup (e_path <$> twoEdits)).
  { apply (bool_decide_unpack _). vm_compute. exact I. }
  assert (Hx : Forall
                 (fun e => shouldExcludeFile noExclusion
                             (config (initial defaultConfig)) (e_path e)
                           = false) twoEdits).
  { repeat constructor. }
  assert (Hf : forall e, e ∈ twoEdits ->
                 e_path e ∉ JsMap.keys (changeQueue (initial defaultConfig))).
  { intros e _. apply not_elem_of_nil. }
  pose proof (burst_is_one_batch noExclusion twoEdits (initial defaultConfig)
                (reachable_initial defaultConfig) eq_refl Hx Hnd Hf)
    as (H & _).
  split; [apply reachable_initial|]. split; [exact Hnd | exact H].
Defined.

(** X3: the service holds at most one armed debounce timer.  Every
    trigger cancels the one before it and arms a new one that carries
    its own request; so an ordinary edit that is recorded after a
    change of the manifest, before the timer has fired, replaces the
    forced trigger, and the cycle that starts when the timer fires with
    the guard clear is not forced. *)
Theorem debounce_single_timer R s :
  reachable R s ->
  (forall h1 h2 t1 t2,
     timers s !! h1 = Some t1 -> status t1 = Armed ->
     timers s !! h2 = Some t2 -> status t2 = Armed -> h1 = h2)
  /\ (forall force,
        exists h,
          debounceTimer (triggerHotReload force s) = Some h
          /\ timers (triggerHotReload force s) !! h
             = Some (mkTimer force (debounceDelay (config s)) Armed)
          /\ forall i t, timers (triggerHotReload force s) !! i = Some t ->
                         status t = Armed -> i = h)
  /\ (forall path ev text now,
        enabled (config s) = true ->
        shouldExcludeFile R (config s) path = false ->
        let s' := handleFileChange R true path ev (Some text) now
                    (handleConfigChange s) in
        exists h,
          (forall i t, timers s' !! i = Some t -> status t = Armed -> i = h)
          /\ (isReloading s = false ->
              forall now', exists c s'',
                debounceFired h now' s' = Some (started c, s'')
                /\ forceFullRebuild c = false)).
Proof.
  intros Hreach. pose proof (reachable_Inv R s Hreach) as HI.
  split; [|split].
  - destruct HI as [_ _ _ _ Htm]. intros h1 h2 t1 t2 H1 Ha1 H2 Ha2.
    pose proof (Htm h1 t1 H1 Ha1). pose proof (Htm h2 t2 H2 Ha2). congruence.
  - intros force. destruct HI as [_ _ _ _ Htm].
    by apply triggerHotReload_timer.
  - intros path ev text now He Hx s'.
    assert (HI' : Inv (handleConfigChange s)).
    { apply (Inv_step R s); [apply step_configChange|done]. }
    unfold s'. rewrite handleFileChange_records by done.
    set (s1 := set_changeQueue _ _).
    assert (HI1 : Inv s1) by (by apply Inv_set_changeQueue).
    destruct HI1 as [_ _ _ _ Htm].
    destruct (triggerHotReload_timer false s1 Htm) as (h & Hd & Hh & Hu).
    exists h. split; [done|]. intros Hr now'.
    unfold debounceFired, fire. rewrite Hh. simpl.
    unfold performHotReload_begin. simpl.
    replace (isReloading s) with false by done.
    by eexists _, _.
Qed.

Lemma debounce_single_timer_witness :
  reachable noExclusion (initial defaultConfig)
  /\ exists h,
       debounceTimer (triggerHotReload true (initial defaultConfig)) = Some h
       /\ timers (triggerHotReload true (initial defaultConfig)) !! h
          = Some (mkTimer true 1000 Armed).
Proof.
  pose proof (debounce_single_timer noExclusion (initial defaultConfig)
                (reachable_initial defaultConfig)) as (_ & H & _).
  split; [apply reachable_initial|].
  destruct (H true) as (h & H1 & H2 & _). exists h. split; [exact H1|exact H2].
Defined.

(** ** What the analysis reads off the queue *)

Lemma get_singleton {V} k (v : V) : JsMap.get k [(k, v)] = Some v.
Proof. simpl. by rewrite decide_True. Qed.

(** Over a map, the loop over the keys is a loop over the entries. *)
Lemma analyze_entries q l acc :
  NoDup (JsMap.keys q) -> (forall kv, kv ∈ l -> kv ∈ q) ->
  fold_left (analyzeFile q) (JsMap.keys l) acc
  = fold_left (fun acc kv => analyzeFile [kv] acc kv.1) l acc.
Proof.
  intros Hnd. revert acc. induction l as [|[k c] l IH]; intros acc Hin;
    [done|].
  unfold JsMap.keys. rewrite fmap_cons. simpl fold_left.
  assert (Hk : JsMap.get k q = Some c).
  { apply get_Some_elem_of; [done|]. apply Hin. by left. }
  assert (Hstep : analyzeFile q acc k = analyzeFile [(k, c)] acc k).
  { unfold analyzeFile. by rewrite Hk, get_singleton. }
  rewrite Hstep. apply IH. intros kv Hkv. apply Hin. by right.
Qed.

Lemma analyze_entry acc kv :
  analyzeFile [kv] acc kv.1
  = (if isDependency kv.1 kv.2 then dependency
     else if isStructural kv.2 then structure
     else if isSwiftUIView kv.1 kv.2 then ui_only
     else acc.1.1,
     acc.1.2 || forcesRebuild kv,
     if isSwiftUIView kv.1 kv.2
     then acc.2 ++ [Js.basename kv.1 ".swift"] else acc.2).
Proof.
  destruct kv as [k c], acc as [[ty rb] comps]. unfold analyzeFile.
  rewrite get_singleton. unfold forcesRebuild. simpl.
  destruct (isSwiftUIView k c), (isStructural c), (isDependency k c),
    rb; reflexivity.
Qed.

Lemma analyze_fold_rebuild l acc :
  (fold_left (fun acc kv => analyzeFile [kv] acc kv.1) l acc).1.2
  = acc.1.2 || existsb forcesRebuild l.
Proof.
  revert acc. induction l as [|kv l IH]; intros acc; simpl fold_left.
  - simpl. by rewrite orb_false_r.
  - rewrite IH, analyze_entry. simpl. by rewrite orb_assoc.
Qed.

Lemma analyze_fold_type l acc :
  let r := fold_left (fun acc kv => analyzeFile [kv] acc kv.1) l acc in
  (r.1.1 = logic <-> acc.1.1 = logic /\ existsb hasSignal l = false)
  /\ ((acc.1.1 = structure \/ acc.1.1 = dependency -> acc.1.2 = true) ->
      r.1.1 = structure \/ r.1.1 = dependency -> r.1.2 = true)
  /\ ((acc.1.1 = ui_only -> acc.2 <> []) -> r.1.1 = ui_only -> r.2 <> []).
Proof.
  revert acc. induction l as [|kv l IH]; intros acc; simpl fold_left.
  - simpl. split; [|done]. split; [done|by intros [? _]].
  - rewrite analyze_entry.
    match goal with |- context [fold_left _ l ?a] => set (acc' := a) end.
    destruct (IH acc') as (IH1 & IH2 & IH3).
    unfold acc' in IH1 at 2, IH2 at 1 2, IH3 at 1 2.
    simpl in IH1, IH2, IH3.
    split; [|split].
    + rewrite IH1. clear. simpl existsb.
      assert (Hs : hasSignal kv
                   = isSwiftUIView kv.1 kv.2
                     || (isStructural kv.2 || isDependency kv.1 kv.2))
        by reflexivity.
      rewrite Hs. clear Hs.
      destruct (isDependency kv.1 kv.2), (isStructural kv.2),
        (isSwiftUIView kv.1 kv.2); simpl; intuition congruence.
    + intros Hacc. apply IH2. revert Hacc. clear. unfold forcesRebuild.
      destruct (isDependency kv.1 kv.2), (isStructural kv.2),
        (isSwiftUIView kv.1 kv.2), (acc.1.2); simpl; intuition congruence.
    + intros Hacc. apply IH3. revert Hacc. clear.
      destruct (isDependency kv.1 kv.2), (isStructural kv.2),
        (isSwiftUIView kv.1 kv.2); simpl; try (intuition congruence).
      intros _ _. by destruct (acc.2).
Qed.

Lemma analyzeChanges_fold q :
  NoDup (JsMap.keys q) ->
  let r := fold_left (fun acc kv => analyzeFile [kv] acc kv.1) q
                     (logic, false, []) in
  analyzeChanges q
  = mkAnalysis r.1.1 (JsMap.keys q) r.2 r.1.2
               (estimate r.1.1 (Z.of_nat (List.length (JsMap.keys q)))).
Proof.
  intros Hnd r. unfold analyzeChanges.
  rewrite (analyze_entries q q) by done. fold r.
  by destruct r as [[ty rb] comps].
Qed.

(** X4: over a queue, the analysis forces the full rebuild exactly
    when some queued file shows a structural or a dependency signal,
    wherever the file stands in the batch. *)
Theorem analysis_forces_rebuild q :
  NoDup (JsMap.keys q) ->
  requiresFullRebuild (analyzeChanges q) = existsb forcesRebuild q.
Proof.
  intros Hnd. rewrite analyzeChanges_fold by done. simpl.
  by rewrite analyze_fold_rebuild.
Qed.

Lemma analysis_forces_rebuild_witness :
  NoDup (JsMap.keys [manifest; loginView])
  /\ requiresFullRebuild (analyzeChanges [manifest; loginView]) = true.
Proof.
  assert (Hnd : NoDup (JsMap.keys [manifest; loginView])).
  { apply (bool_decide_unpack _). vm_compute. exact I. }
  split; [exact Hnd|].
  rewrite (analysis_forces_rebuild [manifest; loginView] Hnd).
  vm_compute. reflexivity.
Defined.

(** X5: the tag of the batch is [logic] exactly when no queued file
    shows any signal; a batch tagged [structure] or [dependency] always
    forces the full rebuild; and a batch tagged [ui_only] names at
    least one affected component. *)
Theorem analysis_tag q :
  NoDup (JsMap.keys q) ->
  (type (analyzeChanges q) = logic <-> existsb hasSignal q = false)
  /\ (type (analyzeChanges q) = structure
      \/ type (analyzeChanges q) = dependency ->
      requiresFullRebuild (analyzeChanges q) = true)
  /\ (type (analyzeChanges q) = ui_only ->
      affectedComponents (analyzeChanges q) <> []).
Proof.
  intros Hnd. rewrite analyzeChanges_fold by done. simpl.
  destruct (analyze_fold_type q (logic, false, [])) as (H1 & H2 & H3).
  simpl in H1, H2, H3. split; [|split].
  - rewrite H1. split; [by intros [_ ?]|done].
  - apply H2. by intros [?|?].
  - by apply H3.
Qed.

Lemma analysis_tag_witness :
  NoDup (JsMap.keys [loginView])
  /\ affectedComponents (analyzeChanges [loginView]) <> [].
Proof.
  assert (Hnd : NoDup (JsMap.keys [loginView])).
  { apply (bool_decide_unpack _). vm_compute. exact I. }
  split; [exact Hnd|].
  apply (proj2 (proj2 (analysis_tag [loginView] Hnd))).
  vm_compute. reflexivity.
Defined.

Lemma analyzeChanges_estimate q :
  estimatedRebuildTime (analyzeChanges q)
  = estimate (type (analyzeChanges q)) (Z.of_nat (List.length q)).
Proof.
  unfold analyzeChanges. destruct (fold_left _ _ _) as [[ty rb] comps].
  simpl. unfold JsMap.keys. by rewrite length_fmap.
Qed.

(** X6: the estimate is zero exactly for the empty batch; it never
    exceeds thirty seconds, nor the ceiling of the tag of the batch (two
    seconds for [ui_only], five for [logic], fifteen for [structure]),
    and for a [dependency] batch it is thirty seconds whatever the
    number of files. *)
Theorem estimate_bounds q :
  let a := analyzeChanges q in
  (estimatedRebuildTime a = 0 <-> q = [])
  /\ 0 <= estimatedRebuildTime a <= 30000
  /\ match type a with
     | ui_only => estimatedRebuildTime a <= 2000
     | logic => estimatedRebuildTime a <= 5000
     | structure => estimatedRebuildTime a <= 15000
     | dependency => estimatedRebuildTime a = 30000
     end.
Proof.
  intros a. unfold a. rewrite analyzeChanges_estimate.
  assert (Hq : type (analyzeChanges q) = dependency -> q <> []).
  { intros Hd ->. by vm_compute in Hd. }
  assert (Hn : Z.of_nat (List.length q) = 0 <-> q = []).
  { destruct q; simpl; split; try done; lia. }
  assert (H0 : 0 <= Z.of_nat (List.length q)) by lia.
  revert Hn H0. generalize (Z.of_nat (List.length q)). intros n Hn H0.
  destruct (type (analyzeChanges q)); unfold estimate;
    (split; [|lia]); rewrite <- Hn; try lia.
  split; [lia|]. intros Hz. exfalso. apply Hq; [done|]. by apply Hn.
Qed.

(** ** The strategy of a cycle *)

Lemma begin_strategy force now s :
  match (performHotReload_begin force now s).1 with
  | skipped => isReloading s = true
  | started c =>
      isReloading s = false
      /\ forceFullRebuild c = force
      /\ analysis c = analyzeChanges (changeQueue s)
      /\ (force = true \/ requiresFullRebuild (analysis c) = true ->
          strategy c = full)
      /\ (strategy c = swiftui_preview ->
          type (analysis c) = ui_only
          /\ swiftUIPreviewMode (config s) = true
          /\ (List.length (files (analysis c)) <= 3)%nat)
      /\ (strategy c = incremental ->
          incrementalCompilation (config s) = true
          /\ (List.length (files (analysis c)) <= 10)%nat)
  end.
Proof.
  unfold performHotReload_begin. destruct (isReloading s); [done|].
  simpl. set (a := analyzeChanges (changeQueue s)).
  split; [done|]. split; [done|]. split; [done|].
  destruct (force || requiresFullRebuild a) eqn:Hf.
  { split; [done|]. split; discriminate. }
  apply orb_false_elim in Hf as [-> Hrb].
  split; [by intros [?|?]; congruence|].
  unfold getReloadStrategy. rewrite Hrb. simpl.
  destruct (type a), (swiftUIPreviewMode (config s)),
    (incrementalCompilation (config s)); simpl;
    destruct (Z.leb_spec (Z.of_nat (List.length (files a))) 3);
    destruct (Z.leb_spec (Z.of_nat (List.length (files a))) 10);
    simpl; (split; [intros ?|intros ?]); try discriminate;
    repeat split; lia.
Qed.

(** X7: a trigger that finds the guard clear starts a cycle on the
    analysis of the queue as it stands.  The cycle uses the full
    strategy whenever it is forced or the analysis forces the rebuild;
    the preview strategy only for a [ui_only] batch of at most three
    files with the preview mode on; the incremental strategy only for a
    batch of at most ten files with incremental compilation on. *)
Theorem cycle_strategy force now s :
  match (performHotReload_begin force now s).1 with
  | skipped => isReloading s = true
  | started c =>
      isReloading s = false
      /\ forceFullRebuild c = force
      /\ analysis c = analyzeChanges (changeQueue s)
      /\ (force = true \/ requiresFullRebuild (analysis c) = true ->
          strategy c = full)
      /\ (strategy c = swiftui_preview ->
          type (analysis c) = ui_only
          /\ swiftUIPreviewMode (config s) = true
          /\ (List.length (files (analysis c)) <= 3)%nat)
      /\ (strategy c = incremental ->
          incrementalCompilation (config s) = true
          /\ (List.length (files (analysis c)) <= 10)%nat)
  end.
Proof. apply begin_strategy. Qed.

(** ** The hash of a content *)

Lemma to_int32_range z : - 2 ^ 31 <= Js.to_int32 z < 2 ^ 31.
Proof.
  unfold Js.to_int32.
  pose proof (Z.mod_pos_bound (z + 2 ^ 31) (2 ^ 32) ltac:(lia)). lia.
Qed.

Lemma to_int32_repr a : exists k, Js.to_int32 a = a + k * 2 ^ 32.
Proof.
  exists (- ((a + 2 ^ 31) / 2 ^ 32)). unfold Js.to_int32.
  rewrite Z.mod_eq by lia. lia.
Qed.

Lemma to_int32_add_mul a k : Js.to_int32 (a + k * 2 ^ 32) = Js.to_int32 a.
Proof.
  unfold Js.to_int32. f_equal.
  replace (a + k * 2 ^ 32 + 2 ^ 31) with (a + 2 ^ 31 + k * 2 ^ 32) by lia.
  apply Z_mod_plus_full.
Qed.

Lemma to_int32_idemp a : Js.to_int32 (Js.to_int32 a) = Js.to_int32 a.
Proof.
  destruct (to_int32_repr a) as [k Hk]. rewrite Hk at 1.
  apply to_int32_add_mul.
Qed.

(** One turn of the loop of [hashContent], on a value that is the
    wrap-around of [a]. *)
Lemma hash_step a c :
  (let h := Js.shl (Js.to_int32 a) 5 - Js.to_int32 a + Js.charCode c in
   Js.and h h)
  = Js.to_int32 (31 * a + Js.charCode c).
Proof.
  cbv zeta. unfold Js.and. rewrite Z.land_diag, to_int32_idemp.
  unfold Js.shl. rewrite to_int32_idemp, Z.shiftl_mul_pow2 by lia.
  destruct (to_int32_repr (Js.to_int32 a * 2 ^ 5)) as [k2 ->].
  destruct (to_int32_repr a) as [k1 ->].
  replace ((a + k1 * 2 ^ 32) * 2 ^ 5 + k2 * 2 ^ 32 - (a + k1 * 2 ^ 32)
           + Js.charCode c)
    with (31 * a + Js.charCode c + (31 * k1 + k2) * 2 ^ 32) by lia.
  apply to_int32_add_mul.
Qed.

(** X8: the hash of a content is the decimal form of the polynomial
    of base 31 over its character codes, wrapped to a signed integer of
    32 bits. *)
Theorem hashContent_horner (s : string) :
  hashContent s = Js.toString (Js.to_int32 (horner31 s))
  /\ - 2 ^ 31 <= Js.to_int32 (horner31 s) < 2 ^ 31.
Proof.
  split; [|apply to_int32_range].
  unfold hashContent, horner31. f_equal.
  assert (H : forall cs a,
    fold_left
      (fun h c => let h := Js.shl h 5 - h + Js.charCode c in Js.and h h)
      cs (Js.to_int32 a)
    = Js.to_int32 (fold_left (fun h c => 31 * h + Js.charCode c) cs a)).
  { induction cs as [|c cs IH]; intros a; simpl fold_left; [done|].
    by rewrite hash_step, IH. }
  apply (H _ 0).
Qed.

(** ** The cache sent with an incremental build *)

(** X9: [getBuildCacheForFiles] returns, in the order of the files, the
    cached entry of every file that has one, and leaves out the files
    that have none. *)
Theorem getBuildCacheForFiles_spec fs (cache : gmap string CacheEntry) :
  (getBuildCacheForFiles fs cache).*1
  = filter (fun f => is_Some (cache !! f)) fs
  /\ forall f e, (f, e) ∈ getBuildCacheForFiles fs cache ->
                 f ∈ fs /\ cache !! f = Some e.
Proof.
  unfold getBuildCacheForFiles. split.
  - induction fs as [|f fs IH]; [done|]. simpl.
    destruct (cache !! f) as [e|] eqn:Hf; simpl.
    + rewrite filter_cons_True by (by rewrite Hf).
      f_equal. exact IH.
    + rewrite filter_cons_False by (rewrite Hf; by intros [? ?]).
      exact IH.
  - intros f e [f' [Hin He]]%list_elem_of_omap.
    destruct (cache !! f') as [e'|] eqn:Hf; [|done].
    simpl in He. by injection He as <- <-.
Qed.

(** ** Whole cycles *)

Lemma sendEach_accepted server q mk fs :
  (forall req, exists d, server req = resolved d) ->
  (forall f, f ∈ fs -> is_Some (JsMap.get f q)) ->
  sendEach server q mk fs = None.
Proof.
  intros Hs. induction fs as [|f fs IH]; intros Hq; [done|]. simpl.
  destruct (Hq f) as [c ->]; [by left|].
  destruct (Hs (mk f c)) as [d ->]. apply IH. intros f' Hf'. apply Hq.
  by right.
Qed.

Lemma sendEach_rejected server q mk f fs :
  (forall req, exists m, server req = rejected m) ->
  exists m, sendEach server q mk (f :: fs) = Some m.
Proof.
  intros Hs. simpl. destruct (JsMap.get f q) as [c|]; [|by eexists].
  destruct (Hs (mk f c)) as [m ->]. by eexists.
Qed.

Lemma get_keys_is_Some {V} (q : list (string * V)) k :
  k ∈ JsMap.keys q -> is_Some (JsMap.get k q).
Proof.
  intros Hk. destruct (JsMap.get k q) eqn:Hg; [by eexists|].
  by apply get_None_keys in Hg.
Qed.

Lemma runStrategy_accepted server c elapsed s :
  (forall req, exists d, server req = resolved d) ->
  files (analysis c) ⊆ JsMap.keys (changeQueue s) ->
  exists r, runStrategy server c elapsed s = returned r
            /\ success r = true /\ duration r = elapsed.
Proof.
  intros Hs Hf.
  assert (Hq : forall f, f ∈ files (analysis c) ->
                         is_Some (JsMap.get f (changeQueue s))).
  { intros f Hin. by apply get_keys_is_Some, Hf. }
  unfold runStrategy. destruct (strategy c).
  - unfold performSwiftUIPreviewReload.
    rewrite sendEach_accepted by done. by eexists.
  - unfold performIncrementalReload.
    destruct (Hs (incremental_build (files (analysis c))
                    (getBuildCacheForFiles (files (analysis c))
                                           (buildCache s)))) as [d ->].
    destruct (Hs (apply_incremental_update d)) as [d' ->]. by eexists.
  - unfold performFullReload. rewrite sendEach_accepted by done.
    destruct (Hs build_project) as [d ->].
    destruct (Hs run_project) as [d' ->]. by eexists.
Qed.

Lemma runStrategy_rejected server c elapsed s :
  (forall req, exists m, server req = rejected m) ->
  (strategy c = swiftui_preview -> files (analysis c) <> []) ->
  exists m, runStrategy server c elapsed s = thrown m.
Proof.
  intros Hs Hne. unfold runStrategy. destruct (strategy c).
  - unfold performSwiftUIPreviewReload.
    destruct (files (analysis c)) as [|f fs]; [by destruct Hne|].
    destruct (sendEach_rejected server (changeQueue s)
                (fun f c0 => swiftui_preview_update f (content c0)
                               (Some (affectedComponents (analysis c))))
                f fs Hs) as [m ->].
    by eexists.
  - unfold performIncrementalReload.
    destruct (Hs (incremental_build (files (analysis c))
                    (getBuildCacheForFiles (files (analysis c))
                                           (buildCache s)))) as [m ->].
    by eexists.
  - unfold performFullReload.
    destruct (sendEach server (changeQueue s) _ (files (analysis c)));
      [by eexists|].
    destruct (Hs build_project) as [m ->]. by eexists.
Qed.

Lemma begin_idle force now s :
  isReloading s = false ->
  exists c s1,
    performHotReload_begin force now s = (started c, s1)
    /\ inflight s1 = inflight s ++ [c]
    /\ changeQueue s1 = changeQueue s
    /\ buildCache s1 = buildCache s
    /\ lastSuccessfulBuild s1 = lastSuccessfulBuild s
    /\ reloadHistory s1 = reloadHistory s
    /\ analysis c = analyzeChanges (changeQueue s)
    /\ startTime c = now.
Proof.
  intros Hr. unfold performHotReload_begin. rewrite Hr.
  eexists _, _. split; [reflexivity|]. repeat split.
Qed.

(** The cycle that [performHotReload] runs from an idle state. *)
Lemma performHotReload_idle server force now elapsed s :
  Inv s -> isReloading s = false ->
  exists c s1,
    Inv s1 /\ inflight s1 !! 0%nat = Some c
    /\ changeQueue s1 = changeQueue s
    /\ buildCache s1 = buildCache s
    /\ lastSuccessfulBuild s1 = lastSuccessfulBuild s
    /\ reloadHistory s1 = reloadHistory s
    /\ analysis c = analyzeChanges (changeQueue s)
    /\ startTime c = now
    /\ (performHotReload_begin force now s).1 = started c
    /\ performHotReload server force now elapsed s
       = performHotReload_end 0 (runStrategy server c elapsed s1)
                              (now + elapsed) s1.
Proof.
  intros HI Hr. pose proof (Inv_begin force now s HI) as HI1.
  destruct (begin_idle force now s Hr)
    as (c & s1 & Hb & Hi1 & Hq & Hbc & Hl & Hh & Ha & Ht).
  destruct HI as [_ Hg _ _ _].
  destruct Hg as [[Hi _]|[c' [_ ?]]]; [|congruence].
  rewrite Hi in Hi1. simpl in Hi1. rewrite Hb in HI1. simpl in HI1.
  exists c, s1. split; [done|]. split; [by rewrite Hi1|].
  repeat (split; [done|]). split; [by rewrite Hb|].
  unfold performHotReload. rewrite Hb, Hi1. reflexivity.
Qed.

(** X10: a cycle that starts from an idle service against a server that
    accepts every request ends in success: the queue is empty, every
    file that was queued has its cache entry, the history ends with a
    successful result that carries the measured duration, and the guard
    is clear. *)
Theorem accepted_cycle R server force now elapsed s :
  reachable R s -> isReloading s = false ->
  (forall req, exists d, server req = resolved d) ->
  let s' := performHotReload server force now elapsed s in
  changeQueue s' = []
  /\ (forall k c, JsMap.get k (changeQueue s) = Some c ->
        buildCache s' !! k = Some (entryOf c)
        /\ lastSuccessfulBuild s' !! k = Some (content c))
  /\ (exists r, last (reloadHistory s') = Some r
                /\ success r = true /\ duration r = elapsed)
  /\ isReloading s' = false /\ inflight s' = [].
Proof.
  intros Hreach Hr Hs s'. pose proof (reachable_Inv R s Hreach) as HI.
  destruct (performHotReload_idle server force now elapsed s HI Hr)
    as (c & s1 & HI1 & Hc & Hq1 & Hb1 & Hl1 & Hh1 & Ha & _ & _ & Heq).
  unfold s'. rewrite Heq. clear s' Heq.
  destruct (runStrategy_accepted server c elapsed s1 Hs)
    as (r & -> & Hsucc & Hdur).
  { rewrite Ha, files_analyzeChanges. by rewrite Hq1. }
  destruct (end_returned 0 c r (now + elapsed) s1 Hc) as (H1 & H2 & H3).
  destruct (end_fields 0 (returned r) (now + elapsed) s1 c Hc) as [H4 H5].
  destruct (inflight_lookup s1 0 c (inv_guard _ HI1) Hc) as [Hi1 _].
  split; [|split; [|split; [|split]]].
  - unfold performHotReload_end. rewrite Hc.
    destruct (core_fields _ _ (core_showReloadResult r
         (set_changeQueue
            (JsMap.clear (changeQueue (updateBuildCache
               (set_inflight (delete 0%nat (inflight s1)) s1))))
            (updateBuildCache (set_inflight (delete 0%nat (inflight s1)) s1)))))
      as (Hq' & _).
    etrans; [exact Hq'|done].
  - intros k ch Hk. rewrite H1, H2, Hq1, Hl1, Hb1.
    destruct (cacheAll_present (changeQueue s)
                (lastSuccessfulBuild s, buildCache s) k ch
                (inv_keys _ (reachable_Inv R s Hreach)) Hk) as [-> ->].
    done.
  - exists r. split; [|done]. rewrite H3. apply last_history_bound.
  - done.
  - by rewrite H5, Hi1.
Qed.

Lemma reachable_edited : reachable noExclusion edited.
Proof.
  exists defaultConfig. eapply rtc_l; [|apply rtc_refl].
  apply (step_fileChange noExclusion (initial defaultConfig) true
           "Sources/App.swift" ev_change (Some "let a = 1") 10).
Defined.

Lemma accepting_accepts : forall req, exists d, accepting req = resolved d.
Proof. intros req. by eexists. Defined.

Lemma failing_rejects : forall req, exists m, failing req = rejected m.
Proof. intros req. by eexists. Defined.

Lemma accepted_cycle_witness :
  reachable noExclusion edited
  /\ isReloading edited = false
  /\ changeQueue (performHotReload accepting false 1010 25 edited) = []
  /\ isReloading (performHotReload accepting false 1010 25 edited) = false.
Proof.
  pose proof (accepted_cycle noExclusion accepting false 1010 25 edited
                reachable_edited eq_refl accepting_accepts)
    as (H1 & _ & _ & H2 & _).
  split; [exact reachable_edited|]. split; [reflexivity|].
  split; [exact H1 | exact H2].
Defined.

(** X11: a cycle that starts from an idle service against a server that
    rejects every request ends in failure: the history ends with a
    failed result that carries one error, while the queue and both
    caches are what they were, so that the next cycle finds the same
    batch; the guard is clear. *)
Theorem rejected_cycle R server force now elapsed s :
  reachable R s -> isReloading s = false ->
  (forall req, exists m, server req = rejected m) ->
  let s' := performHotReload server force now elapsed s in
  changeQueue s' = changeQueue s
  /\ buildCache s' = buildCache s
  /\ lastSuccessfulBuild s' = lastSuccessfulBuild s
  /\ (exists m, last (reloadHistory s')
                = Some (mkResult false elapsed "error" (Some [m]) None))
  /\ isReloading s' = false /\ inflight s' = [].
Proof.
  intros Hreach Hr Hs s'. pose proof (reachable_Inv R s Hreach) as HI.
  destruct (performHotReload_idle server force now elapsed s HI Hr)
    as (c & s1 & HI1 & Hc & Hq1 & Hb1 & Hl1 & Hh1 & Ha & Ht & Hbeg & Heq).
  unfold s'. rewrite Heq. clear s' Heq.
  destruct (runStrategy_rejected server c elapsed s1 Hs) as [m ->].
  { intros Hp. pose proof (begin_strategy force now s) as Hcs.
    rewrite Hbeg in Hcs. destruct Hcs as (_ & _ & _ & _ & Hprev & _).
    destruct (Hprev Hp) as [Hty _]. rewrite Ha in Hty |- *.
    intros Hnil. rewrite files_analyzeChanges in Hnil.
    destruct (changeQueue s); [by vm_compute in Hty|done]. }
  destruct (end_thrown 0 c m (now + elapsed) s1 Hc) as (H1 & H2 & H3 & H4).
  destruct (end_fields 0 (thrown m) (now + elapsed) s1 c Hc) as [H5 H6].
  destruct (inflight_lookup s1 0 c (inv_guard _ HI1) Hc) as [Hi1 _].
  rewrite H1, H2, H3, H4, Hq1, Hb1, Hl1, Ht.
  repeat (split; [done|]). split; [|by rewrite H6, Hi1].
  exists m. rewrite last_history_bound. do 2 f_equal. lia.
Qed.

Lemma rejected_cycle_witness :
  reachable noExclusion edited
  /\ isReloading edited = false
  /\ changeQueue (performHotReload failing false 1010 25 edited)
     = changeQueue edited
  /\ buildCache (performHotReload failing false 1010 25 edited)
     = buildCache edited.
Proof.
  pose proof (rejected_cycle noExclusion failing false 1010 25 edited
                reachable_edited eq_refl failing_rejects)
    as (H1 & H2 & _).
  split; [exact reachable_edited|]. split; [reflexivity|].
  split; [exact H1 | exact H2].
Defined.

End ReloadExtras.

Module ConnectionExtras.
Import Connection.
Import ConnectionProofs.

(** ** A reply for a pending request *)

Lemma matching_Some m s i r :
  matching m s = Some (i, r) <->
  id m = Some i /\ i <> "" /\ pendingRequests s !! i = Some r.
Proof.
  unfold matching. destruct (id m) as [j|]; [|by split; [|intros [? _]]].
  destruct (String.eqb_spec j "") as [->|Hne].
  - split; [done|]. by intros ([= <-] & ? & _).
  - destruct (pendingRequests s !! j) as [r'|] eqn:Hj; simpl.
    + split.
      * by intros [= <- <-].
      * intros ([= <-] & _ & Hr). rewrite Hj in Hr. by injection Hr as <-.
    + split; [done|]. intros ([= <-] & _ & Hr). by rewrite Hj in Hr.
Qed.

Lemma handleServerMessage_matched m s i r :
  matching m s = Some (i, r) ->
  handleServerMessage m s = complete i r (settledBy m) s.
Proof.
  intros Hm. unfold handleServerMessage, settledBy. rewrite Hm.
  by destruct (String.eqb (type m) "error").
Qed.

(** X12: a message whose id names a pending request settles that
    request and no other: its promise, which was waiting, is rejected
    with the message of an "error" reply and resolved with the data of
    any other; its entry leaves the table and its timer is disarmed.
    After that neither the same message again nor the firing of that
    timer changes anything but the list of effects. *)
Theorem reply_settles_once m s i r :
  reachable s ->
  id m = Some i -> i <> "" -> pendingRequests s !! i = Some r ->
  let s' := handleServerMessage m s in
  promises s !! promise r = Some Pending
  /\ promises s' !! promise r = Some (settledBy m)
  /\ (forall p, p <> promise r -> promises s' !! p = promises s !! p)
  /\ pendingRequests s' = delete i (pendingRequests s)
  /\ timers s' !! timeout r
     = Some (mkTimer (request_timeout i (promise r)) 30000 Cleared)
  /\ timerFired (timeout r) s' = s'
  /\ promises (handleServerMessage m s') = promises s'
  /\ pendingRequests (handleServerMessage m s') = pendingRequests s'
  /\ timers (handleServerMessage m s') = timers s'.
Proof.
  intros Hreach Hid Hne Hi s'. pose proof (conn_reachable_Inv s Hreach) as HI.
  pose proof (entry_pending s i r HI Hi) as Hp.
  pose proof (inv_entry s HI i r Hi) as Ht.
  assert (Hm : matching m s = Some (i, r)) by (by apply matching_Some).
  unfold s'. rewrite (handleServerMessage_matched m s i r Hm).
  unfold complete. simpl.
  assert (Hc : clearTimeout (timeout r) (timers s)
               = <[timeout r := mkTimer (request_timeout i (promise r))
                                        30000 Cleared]> (timers s)).
  { unfold clearTimeout. by rewrite Ht. }
  assert (Hl : clearTimeout (timeout r) (timers s) !! timeout r
               = Some (mkTimer (request_timeout i (promise r)) 30000 Cleared)).
  { rewrite Hc. apply list_lookup_insert_eq. by eapply lookup_lt_Some. }
  split; [done|]. split; [by apply settle_pending|].
  split; [by intros p Hpne; apply settle_other|].
  split; [done|]. split; [done|].
  split.
  { unfold timerFired, fire. simpl. by rewrite Hl. }
  rewrite handleServerMessage_unmatched; [done|].
  unfold matching. rewrite Hid. simpl.
  destruct (String.eqb i ""); [done|]. by rewrite lookup_delete_eq.
Qed.

Lemma reply_settles_once_witness :
  reachable opened
  /\ pendingRequests opened !! "k3x9q2m1z" = Some (mkPending 0 0)
  /\ promises
       (handleServerMessage
          (mkMessage "authenticate_response" (mkData None "ok")
                     (Some "k3x9q2m1z")) opened) !! 0%nat
     = Some (Fulfilled (mkData None "ok")).
Proof.
  assert (Hne : "k3x9q2m1z" <> "") by discriminate.
  pose proof (reply_settles_once
                (mkMessage "authenticate_response" (mkData None "ok")
                           (Some "k3x9q2m1z"))
                opened "k3x9q2m1z" (mkPending 0 0)
                reachable_opened eq_refl Hne eq_refl) as (_ & H & _).
  split; [exact reachable_opened|]. split; [reflexivity | exact H].
Defined.

(** X13: a message without an id, or with the empty string as id, is
    never matched with a request, not even with one that is pending
    under the empty id: it settles nothing, leaves the table and the
    timers alone and goes to the handler of its type, or is reported as
    unhandled. *)
Theorem reply_without_id m s :
  id m = None \/ id m = Some "" ->
  let s' := handleServerMessage m s in
  promises s' = promises s
  /\ pendingRequests s' = pendingRequests s
  /\ timers s' = timers s
  /\ effects s'
     = effects s
       ++ [match messageHandlers !! type m with
           | Some h => handled h (data m)
           | None => unhandled (type m)
           end].
Proof.
  intros Hid s'. unfold s'. rewrite handleServerMessage_unmatched; [done|].
  unfold matching. by destruct Hid as [-> | ->].
Qed.

Lemma reply_without_id_witness :
  id (mkMessage "build_output" (mkData None "ld: warning") None) = None
  /\ promises
       (handleServerMessage
          (mkMessage "build_output" (mkData None "ld: warning") None) opened)
     = promises opened.
Proof.
  pose proof (reply_without_id
                (mkMessage "build_output" (mkData None "ld: warning") None)
                opened (or_introl eq_refl)) as (H & _).
  split; [reflexivity | exact H].
Defined.

(** ** A send that fails on the socket *)

Lemma settle_fresh v ps :
  settle (List.length ps) v (ps ++ [Pending]) = ps ++ [v].
Proof.
  unfold settle. rewrite list_lookup_middle by done.
  rewrite insert_app_r_alt by done. by rewrite Nat.sub_diag.
Qed.

(** X14: when the socket is open but [websocket.send] throws, the
    promise is rejected with the error that was thrown, the timer that
    was just armed is cleared, nothing reaches the wire, and the entry
    of the id is gone: the table is the one before the send when the id
    was not pending. *)
Theorem sendMessage_send_throws m i e s :
  websocket s = Some OPEN ->
  let r := sendMessage m i (Some e) s in
  promises r.2 = promises s ++ [Rejected e]
  /\ promises r.2 !! r.1 = Some (Rejected e)
  /\ pendingRequests r.2 = delete i (pendingRequests s)
  /\ (pendingRequests s !! i = None -> pendingRequests r.2 = pendingRequests s)
  /\ timers r.2
     = timers s ++ [mkTimer (request_timeout i r.1) 30000 Cleared]
  /\ sent r.2 = sent s.
Proof.
  intros Hw r. unfold r. rewrite sendMessage_throws by done.
  unfold complete, registered. simpl.
  pose proof (settle_fresh (Rejected e) (promises s)) as Hp.
  assert (Ht : clearTimeout (List.length (timers s))
                 (timers s
                  ++ [mkTimer (request_timeout i (List.length (promises s)))
                              30000 Armed])
               = timers s
                 ++ [mkTimer (request_timeout i (List.length (promises s)))
                             30000 Cleared]).
  { unfold clearTimeout. rewrite list_lookup_middle by done. simpl.
    rewrite insert_app_r_alt by done. by rewrite Nat.sub_diag. }
  rewrite Hp, Ht. split; [done|]. split; [by rewrite list_lookup_middle|].
  split; [apply delete_insert_eq|]. split; [|done].
  intros Hi. rewrite delete_insert_eq. by apply delete_id.
Qed.

Lemma sendMessage_send_throws_witness :
  websocket opened = Some OPEN
  /\ pendingRequests (sendMessage build "z9y8x7w6v" (Some "EPIPE") opened).2
     = delete "z9y8x7w6v" (pendingRequests opened)
  /\ sent (sendMessage build "z9y8x7w6v" (Some "EPIPE") opened).2
     = sent opened.
Proof.
  pose proof (sendMessage_send_throws build "z9y8x7w6v" "EPIPE" opened
                eq_refl) as (_ & _ & H1 & _ & _ & H2).
  split; [reflexivity|]. split; [exact H1 | exact H2].
Defined.

(** ** Reconnection *)

Lemma attempts_sendMessage m i e s :
  reconnectAttempts (sendMessage m i e s).2 = reconnectAttempts s.
Proof.
  destruct (decide (websocket s = Some OPEN)) as [Hw|Hw].
  - destruct e as [e|].
    + by rewrite sendMessage_throws.
    + by rewrite sendMessage_open.
  - by rewrite sendMessage_closed.
Qed.

Lemma attempts_handleDisconnection s :
  reconnectAttempts (handleDisconnection s) = reconnectAttempts s.
Proof. by rewrite handleDisconnection_eq. Qed.

Lemma attempts_step s s' : step s s' -> attemptsBounded s -> attemptsBounded s'.
Proof.
  unfold attemptsBounded, maxReconnectAttempts.
  intros Hstep Hb. destruct Hstep.
  - by rewrite attempts_sendMessage.
  - unfold handleServerMessage. destruct (matching m s) as [[i r]|].
    + by destruct (String.eqb (type m) "error").
    + by destruct (messageHandlers !! type m).
  - unfold timerFired. by destruct (fire h (timers s)) as [[[]]|].
  - done.
  - unfold onOpen. rewrite attempts_sendMessage. by destruct (websocket s).
  - unfold onClose. rewrite attempts_handleDisconnection.
    by destruct (websocket s).
  - done.
  - simpl. lia.
  - by rewrite attempts_handleDisconnection.
  - unfold handleConnectionError, maxReconnectAttempts. simpl.
    destruct (Z.ltb_spec (reconnectAttempts s) 5); simpl; lia.
  - done.
Qed.

(** X15: the number of reconnection attempts is always between zero
    and the limit of five.  Below the limit, an error of the connection
    counts one attempt and schedules one reconnection five seconds
    later; at the limit it schedules nothing and counts nothing; a
    connection that becomes ready sets the count back to zero. *)
Theorem reconnect_attempts_bounded s :
  reachable s ->
  0 <= reconnectAttempts s <= 5
  /\ (reconnectAttempts s < 5 ->
      reconnectAttempts (handleConnectionError s) = reconnectAttempts s + 1
      /\ timers (handleConnectionError s)
         = timers s ++ [mkTimer reconnect 5000 Armed])
  /\ (reconnectAttempts s = 5 ->
      reconnectAttempts (handleConnectionError s) = 5
      /\ timers (handleConnectionError s) = timers s)
  /\ connected (handleConnectionError s) = false
  /\ forall workspace, reconnectAttempts (onReady workspace s) = 0.
Proof.
  intros Hreach.
  assert (Hb : attemptsBounded s).
  { apply (rtc_ind_r (R := step) (fun s => attemptsBounded s) initial);
      [done | | exact Hreach].
    intros s1 s2 _ Hstep IH. by apply (attempts_step s1). }
  unfold attemptsBounded, maxReconnectAttempts in Hb.
  split; [done|]. unfold handleConnectionError, maxReconnectAttempts. simpl.
  split; [|split].
  - intros Hlt. destruct (Z.ltb_spec (reconnectAttempts s) 5); [done|lia].
  - intros Heq. destruct (Z.ltb_spec (reconnectAttempts s) 5); [lia|done].
  - split; [|done].
    by destruct (reconnectAttempts s <? 5).
Qed.

Lemma reconnect_attempts_bounded_witness :
  reachable opened /\ 0 <= reconnectAttempts opened <= 5.
Proof.
  split; [exact reachable_opened|].
  exact (proj1 (reconnect_attempts_bounded opened reachable_opened)).
Defined.

(** ** Disconnecting *)

(** X16: [disconnect] drops the socket and the connected flag but
    settles no pending request and clears no timer: what is pending
    stays pending until the close event or its deadline.  Every send
    after it is rejected at once as not connected and registers
    nothing. *)
Theorem disconnect_then_send m i e s :
  let s' := disconnect s in
  isConnected s' = false
  /\ pendingRequests s' = pendingRequests s
  /\ promises s' = promises s
  /\ timers s' = timers s
  /\ promises (sendMessage m i e s').2 !! (sendMessage m i e s').1
     = Some (Rejected NotConnected)
  /\ pendingRequests (sendMessage m i e s').2 = pendingRequests s
  /\ sent (sendMessage m i e s').2 = sent s.
Proof.
  intros s'.
  assert (Hw : websocket s' <> Some OPEN) by done.
  rewrite (sendMessage_closed m i e s' Hw). unfold reject. simpl.
  rewrite settle_fresh.
  split; [done|]. split; [done|]. split; [done|]. split; [done|].
  split; [by rewrite list_lookup_middle|done].
Qed.

(** ** The wire *)

Lemma sent_step s s' : step s s' -> sentWithId s -> sentWithId s'.
Proof.
  assert (Hsend : forall m i e s0,
            sentWithId s0 -> sentWithId (sendMessage m i e s0).2).
  { intros m i e s0 H0. destruct (decide (websocket s0 = Some OPEN)) as [Hw|Hw].
    - destruct e as [e|].
      + rewrite sendMessage_throws by done. exact H0.
      + rewrite sendMessage_open by done. intros m0. simpl.
        rewrite elem_of_app, list_elem_of_singleton.
        intros [Hin| ->]; [by apply H0|by eexists].
    - rewrite sendMessage_closed by done. exact H0. }
  intros Hstep Hs. destruct Hstep; try exact Hs.
  - by apply Hsend.
  - unfold handleServerMessage. destruct (matching m s) as [[i r]|].
    + by destruct (String.eqb (type m) "error").
    + by destruct (messageHandlers !! type m).
  - unfold timerFired. by destruct (fire h (timers s)) as [[[]]|].
  - unfold onOpen. apply Hsend. by destruct (websocket s).
  - unfold onClose. rewrite handleDisconnection_eq. by destruct (websocket s).
  - by rewrite handleDisconnection_eq.
  - unfold handleConnectionError. simpl.
    by destruct (reconnectAttempts s <? maxReconnectAttempts).
Qed.

(** X17: every message that the client has put on the wire carries a
    correlation id, and a send on the open socket adds exactly the
    message it was given, with the id that was drawn for it. *)
Theorem wire_messages_have_ids s :
  reachable s ->
  (forall m, m ∈ sent s -> exists i, id m = Some i)
  /\ forall m i,
       websocket s = Some OPEN ->
       sent (sendMessage m i None s).2
       = sent s ++ [mkMessage (type m) (data m) (Some i)].
Proof.
  intros Hreach. split.
  - apply (rtc_ind_r (R := step) (fun s => sentWithId s) initial);
      [ | | exact Hreach].
    + intros m Hm. by apply elem_of_nil in Hm.
    + intros s1 s2 _ Hstep IH. by apply (sent_step s1).
  - intros m i Hw. by rewrite sendMessage_open.
Qed.

Lemma wire_messages_have_ids_witness :
  reachable opened
  /\ forall m, m ∈ sent opened -> exists i, id m = Some i.
Proof.
  split; [exact reachable_opened|].
  exact (proj1 (wire_messages_have_ids opened reachable_opened)).
Defined.

End ConnectionExtras.
